(** * TourGuide Speakers: the language switcher of [assets/js/main.js]

    A shallow embedding of [initLanguageSwitcher] (lines 265-387 of
    [assets/js/main.js]) and of the browser objects it touches: the
    [.lang-switcher] elements of the page, [localStorage], the [dir]
    attribute of the root element, [document.activeElement] and the custom
    events dispatched on [document].

    Every listener of the source is one function on [page]; a listener that
    can end with an uncaught exception returns an [outcome] that keeps the
    page as it was when the exception left it. *)

From Stdlib Require Import ZArith QArith Ascii String.
From stdpp Require Import base option list strings gmap.

Local Open Scope Z_scope.
Local Open Scope string_scope.
Local Open Scope list_scope.
Local Open Scope nat_scope.

(** ** JavaScript values and platform objects *)

(** The exceptions the modelled statements can raise. *)
Inductive exn : Type :=
| SecurityError        (* reading [window.localStorage] is denied *)
| QuotaExceededError   (* [setItem] could not store the value *)
| TypeError            (* a method call on [undefined] *)
| SyntaxError.         (* [querySelector] got an invalid selector *)

(** [dataset.lang] and [dataset.label] are a string, or [undefined] when the
    attribute is missing: [None] stands for [undefined]. *)
Definition ToString (v : option string) : string :=
  match v with
  | Some s => s
  | None => "undefined"
  end.

(** [el.textContent = v]: [undefined] is converted to [null], which the
    setter treats as the empty string. *)
Definition textContent_value (v : option string) : string :=
  match v with
  | Some s => s
  | None => ""
  end.

(** [if (v)] on a value returned by [getItem]: [null] and the empty string
    are falsy. *)
Definition truthy (v : option string) : bool :=
  match v with
  | Some s => negb (String.eqb s "")
  | None => false
  end.

(** [localStorage]: the stored entries, and the two ways the platform lets an
    access fail. *)
Record Storage : Type := mkStorage {
  entries : gmap string string;
  access_denied : bool;    (* every access throws SecurityError *)
  rejects_writes : bool    (* [setItem] throws QuotaExceededError *)
}.

Definition getItem (st : Storage) (key : string) : exn + option string :=
  if access_denied st then inl SecurityError
  else inr (entries st !! key).

Definition setItem (st : Storage) (key value : string) : exn + Storage :=
  if access_denied st then inl SecurityError
  else if rejects_writes st then inl QuotaExceededError
  else inr (mkStorage (<[key := value]> (entries st))
                      (access_denied st) (rejects_writes st)).

(** JavaScript's [%] truncates towards zero ([Z.rem]); a zero divisor gives
    [NaN], which indexes no array element. *)
Definition js_rem (a b : Z) : option Z :=
  if (b =? 0)%Z then None else Some (Z.rem a b).

(** [arr[n]] for the number computed by [js_rem]: [undefined] ([None]) for
    [NaN] and outside the array. *)
Definition js_index {A : Type} (arr : list A) (n : option Z) : option nat :=
  match n with
  | Some z =>
      if (z <? 0)%Z then None
      else if decide (Z.to_nat z < length arr) then Some (Z.to_nat z)
      else None
  | None => None
  end.

(** ** The page *)

(** Modelled from the spec: the page markup, which is not among the sources.
    A selector instance is a [.lang-switcher] element; its declared options
    are its [.lang-switcher__item] descendants in document order, they lie
    inside its [.lang-switcher__menu], accept focus, and are the only
    descendants of the switcher that carry a [data-lang] attribute. *)
Record item : Type := mkItem {
  data_lang : option string;    (* item.dataset.lang *)
  data_label : option string;   (* item.dataset.label *)
  is_active : bool              (* 'is-active' in item.classList *)
}.

Record switcher : Type := mkSwitcher {
  is_open : bool;                  (* 'is-open' in switcher.classList *)
  has_toggle : bool;               (* a .lang-switcher__toggle exists *)
  aria_expanded : option string;   (* its aria-expanded attribute *)
  has_menu : bool;                 (* a .lang-switcher__menu exists *)
  items : list item;
  currentLabel : option string;    (* text of .lang-switcher__current,
                                      [None] when there is no such element *)
  listening : bool                 (* the listeners of lines 277-363 are attached *)
}.

(** A place in the document: an option, the toggle or another node of
    switcher [k], or anything outside every switcher. *)
Inductive node : Type :=
| Item (k i : nat)
| Toggle (k : nat)
| Within (k : nat)
| Elsewhere.

Record CustomEvent : Type := mkEvent {
  type : string;
  detail_lang : option string;
  detail_label : option string
}.

Record page : Type := mkPage {
  switchers : list switcher;
  localStorage : Storage;
  dir : option string;             (* document.documentElement 'dir' *)
  activeElement : node;
  dispatched : list CustomEvent    (* events dispatched on document, oldest first *)
}.

#[global] Instance node_eq_dec : EqDecision node.
Proof. solve_decision. Defined.

(** How a listener ends: normally, or with an exception nothing catches. *)
Inductive outcome : Type :=
| Completed (p : page)
| Threw (e : exn) (p : page).

Definition page_of (r : outcome) : page :=
  match r with
  | Completed p => p
  | Threw _ p => p
  end.

(** The exception a listener ended with, if any. *)
Definition thrown (r : outcome) : option exn :=
  match r with
  | Completed _ => None
  | Threw e _ => Some e
  end.

(** *** Field updates *)

Definition set_active (b : bool) (it : item) : item :=
  mkItem (data_lang it) (data_label it) b.

Definition set_open (b : bool) (sw : switcher) : switcher :=
  mkSwitcher b (has_toggle sw) (aria_expanded sw) (has_menu sw)
             (items sw) (currentLabel sw) (listening sw).

Definition set_aria_expanded (v : string) (sw : switcher) : switcher :=
  mkSwitcher (is_open sw) (has_toggle sw) (Some v) (has_menu sw)
             (items sw) (currentLabel sw) (listening sw).

Definition set_items (its : list item) (sw : switcher) : switcher :=
  mkSwitcher (is_open sw) (has_toggle sw) (aria_expanded sw) (has_menu sw)
             its (currentLabel sw) (listening sw).

Definition set_listening (sw : switcher) : switcher :=
  mkSwitcher (is_open sw) (has_toggle sw) (aria_expanded sw) (has_menu sw)
             (items sw) (currentLabel sw) true.

(** [if (currentLabel) currentLabel.textContent = label] *)
Definition set_currentLabel (label : option string) (sw : switcher) : switcher :=
  match currentLabel sw with
  | Some _ =>
      mkSwitcher (is_open sw) (has_toggle sw) (aria_expanded sw) (has_menu sw)
                 (items sw) (Some (textContent_value label)) (listening sw)
  | None => sw
  end.

Definition set_switchers (sws : list switcher) (p : page) : page :=
  mkPage sws (localStorage p) (dir p) (activeElement p) (dispatched p).

Definition set_switcher (k : nat) (sw : switcher) (p : page) : page :=
  set_switchers (<[k := sw]> (switchers p)) p.

Definition set_localStorage (st : Storage) (p : page) : page :=
  mkPage (switchers p) st (dir p) (activeElement p) (dispatched p).

Definition set_dir (v : string) (p : page) : page :=
  mkPage (switchers p) (localStorage p) (Some v) (activeElement p) (dispatched p).

Definition focus (n : node) (p : page) : page :=
  mkPage (switchers p) (localStorage p) (dir p) n (dispatched p).

Definition dispatchEvent (ev : CustomEvent) (p : page) : page :=
  mkPage (switchers p) (localStorage p) (dir p) (activeElement p)
         (dispatched p ++ [ev]).

(** ** The listeners of [initLanguageSwitcher] *)

Definition preferredLanguage : string := "preferredLanguage".

(** [items.forEach(i => i.classList.remove('is-active'));
    item.classList.add('is-active')] for the item at index [i]. *)
Definition activate_only (i : nat) (its : list item) : list item :=
  alter (set_active true) i (set_active false <$> its).

(** [switcher.classList.remove('is-open');
    toggle.setAttribute('aria-expanded', 'false')] *)
Definition close (sw : switcher) : switcher :=
  set_aria_expanded "false" (set_open false sw).

(** Lines 277-287: the click listener of the toggle. *)
Definition toggle_click (k : nat) (p : page) : outcome :=
  match switchers p !! k with
  | None => Completed p
  | Some sw =>
      let isOpen := negb (is_open sw) in
      let sw' := set_aria_expanded (if isOpen then "true" else "false")
                                   (set_open isOpen sw) in
      let p' := set_switcher k sw' p in
      if isOpen then
        match items sw with
        | [] => Completed p'
        | _ :: _ => Completed (focus (Item k 0) p')
        end
      else Completed p'
  end.

(** Lines 291-325: the click listener of the item at index [i]. *)
Definition item_click (k i : nat) (p : page) : outcome :=
  match switchers p !! k with
  | None => Completed p
  | Some sw =>
      match items sw !! i with
      | None => Completed p
      | Some it =>
          let lang := data_lang it in
          let label := data_label it in
          let sw1 := set_currentLabel label sw in
          let sw2 := set_items (activate_only i (items sw1)) sw1 in
          let p2 := set_switcher k sw2 p in
          match setItem (localStorage p2) preferredLanguage (ToString lang) with
          | inl e => Threw e p2
          | inr st =>
              let p3 := set_localStorage st p2 in
              let p4 := set_switcher k (close sw2) p3 in
              let p5 := dispatchEvent (mkEvent "languageChange" lang label) p4 in
              if decide (lang = Some "ar-EG")
              then Completed (set_dir "rtl" p5)
              else Completed (set_dir "ltr" p5)
          end
      end
  end.

(** [itemsArray.indexOf(document.activeElement)] *)
Definition indexOf_focused (k : nat) (sw : switcher) (p : page) : Z :=
  match activeElement p with
  | Item k' i =>
      if decide (k' = k) then
        if decide (i < length (items sw)) then Z.of_nat i else (-1)%Z
      else (-1)%Z
  | _ => (-1)%Z
  end.

(** [itemsArray[n].focus()] *)
Definition focus_item (k : nat) (sw : switcher) (n : option Z) (p : page) : outcome :=
  match js_index (items sw) n with
  | Some i => Completed (focus (Item k i) p)
  | None => Threw TypeError p
  end.

(** Lines 329-355: the keydown listener of the menu. *)
Definition menu_keydown (k : nat) (key : string) (p : page) : outcome :=
  match switchers p !! k with
  | None => Completed p
  | Some sw =>
      let currentIndex := indexOf_focused k sw p in
      let len := Z.of_nat (length (items sw)) in
      if String.eqb key "ArrowDown" then
        let nextIndex := js_rem (currentIndex + 1) len in
        focus_item k sw nextIndex p
      else if String.eqb key "ArrowUp" then
        let prevIndex := js_rem (currentIndex - 1 + len) len in
        focus_item k sw prevIndex p
      else if String.eqb key "Escape" then
        Completed (focus (Toggle k) (set_switcher k (close sw) p))
      else if String.eqb key "Tab" then
        Completed (set_switcher k (close sw) p)
      else Completed p
  end.

(** [switcher.contains(e.target)] *)
Definition contains (k : nat) (target : node) : bool :=
  match target with
  | Item k' _ | Toggle k' | Within k' => bool_decide (k' = k)
  | Elsewhere => false
  end.

(** Lines 358-363: the click listener that switcher [k] puts on [document]. *)
Definition document_click (target : node) (k : nat) (sw : switcher) : switcher :=
  if listening sw && negb (contains k target) then close sw else sw.

(** *** Restoring the saved preference *)

(** The characters that make the text between the quotes of
    [[data-lang="..."]] differ from the string it denotes, or end it: NUL,
    line feed, form feed, carriage return, the double quote and the
    backslash. *)
Definition css_literal_char (c : ascii) : bool :=
  let n := nat_of_ascii c in
  negb (Nat.eqb n 0 || Nat.eqb n 10 || Nat.eqb n 12 || Nat.eqb n 13
        || Nat.eqb n 34 || Nat.eqb n 92).

Fixpoint css_plain (v : string) : bool :=
  match v with
  | EmptyString => true
  | String c v' => css_literal_char c && css_plain v'
  end.

(** [switcher.querySelector(`[data-lang="${v}"]`)]: the index of the first
    item whose [data-lang] is [v], [Some None] for [null]. The selector is
    modelled for [css_plain] values only, where it denotes [v] itself; the
    answer is [None] for the others. *)
Definition querySelector_data_lang (v : string) (its : list item)
  : option (option nat) :=
  if css_plain v
  then Some (fst <$> list_find (λ it, data_lang it = Some v) its)
  else None.

(** Lines 366-385: the restore at the end of the setup of switcher [k].
    [None] only where [querySelector_data_lang] is. *)
Definition restore (k : nat) (p : page) : option outcome :=
  match switchers p !! k with
  | None => Some (Completed p)
  | Some sw =>
      match getItem (localStorage p) preferredLanguage with
      | inl e => Some (Threw e p)
      | inr savedLang =>
          if truthy savedLang then
            match querySelector_data_lang (ToString savedLang) (items sw) with
            | None => None
            | Some None => Some (Completed p)
            | Some (Some savedItem) =>
                let label := (items sw !! savedItem) ≫= data_label in
                let sw1 := set_currentLabel label sw in
                let sw2 := set_items (activate_only savedItem (items sw1)) sw1 in
                let p2 := set_switcher k sw2 p in
                if decide (ToString savedLang = "ar-EG")
                then Some (Completed (set_dir "rtl" p2))
                else Some (Completed p2)
            end
          else
            match items sw with
            | [] => Some (Completed p)
            | it :: its =>
                Some (Completed
                        (set_switcher k (set_items (set_active true it :: its) sw) p))
            end
      end
  end.

(** Lines 268-386: the callback that [switchers.forEach] runs on switcher
    [k]. *)
Definition setup_switcher (k : nat) (p : page) : option outcome :=
  match switchers p !! k with
  | None => Some (Completed p)
  | Some sw =>
      if has_toggle sw && has_menu sw
      then restore k (set_switcher k (set_listening sw) p)
      else Some (Completed p)
  end.

(** [switchers.forEach]: an exception ends the loop. *)
Fixpoint forEach_switcher (ks : list nat) (p : page) : option outcome :=
  match ks with
  | [] => Some (Completed p)
  | k :: ks' =>
      match setup_switcher k p with
      | Some (Completed p') => forEach_switcher ks' p'
      | r => r
      end
  end.

Definition initLanguageSwitcher (p : page) : option outcome :=
  forEach_switcher (seq 0 (length (switchers p))) p.

(** *** The setup, for every stored value *)

(** What [switcher.querySelector] of line 368 can answer. The selector is
    built from the stored value: a value that is not [css_plain] can make it
    invalid, or make it match any descendant of the switcher. *)
Inductive selector_answer : Type :=
| Rejected                              (* SyntaxError *)
| NoMatch                               (* null *)
| MatchedItem (i : nat)                 (* the option at index [i] *)
| MatchedOther (label : option string). (* a descendant that is no option,
                                           with its dataset.label *)

(** The answers the platform can give for the stored value [v]: the first
    option whose [data-lang] is [v] when [v] is [css_plain], any answer
    otherwise. *)
Definition may_answer (v : string) (its : list item) (a : selector_answer)
  : Prop :=
  if css_plain v then
    a = match list_find (λ it, data_lang it = Some v) its with
        | Some (i, _) => MatchedItem i
        | None => NoMatch
        end
  else
    match a with
    | MatchedItem i => i < length its
    | _ => True
    end.

(** Lines 366-385, with the answer of [querySelector] given. *)
Definition restore_on (a : selector_answer) (k : nat) (p : page) : outcome :=
  match switchers p !! k with
  | None => Completed p
  | Some sw =>
      match getItem (localStorage p) preferredLanguage with
      | inl e => Threw e p
      | inr savedLang =>
          if truthy savedLang then
            match a with
            | Rejected => Threw SyntaxError p
            | NoMatch => Completed p
            | MatchedItem savedItem =>
                let label := (items sw !! savedItem) ≫= data_label in
                let sw1 := set_currentLabel label sw in
                let sw2 := set_items (activate_only savedItem (items sw1)) sw1 in
                let p2 := set_switcher k sw2 p in
                if decide (ToString savedLang = "ar-EG")
                then Completed (set_dir "rtl" p2)
                else Completed p2
            | MatchedOther label =>
                let sw1 := set_currentLabel label sw in
                let sw2 := set_items (set_active false <$> items sw1) sw1 in
                let p2 := set_switcher k sw2 p in
                if decide (ToString savedLang = "ar-EG")
                then Completed (set_dir "rtl" p2)
                else Completed p2
            end
          else
            match items sw with
            | [] => Completed p
            | it :: its =>
                Completed
                  (set_switcher k (set_items (set_active true it :: its) sw) p)
            end
      end
  end.

(** The answers [querySelector] can give in switcher [k] of page [p]. *)
Definition answers (k : nat) (p : page) (a : selector_answer) : Prop :=
  match switchers p !! k, getItem (localStorage p) preferredLanguage with
  | Some sw, inr (Some v) => may_answer v (items sw) a
  | _, _ => True
  end.

(** [restore] as a relation: the ways lines 366-385 can end on switcher [k],
    whatever the stored value is. *)
Definition restores (k : nat) (p : page) (r : outcome) : Prop :=
  ∃ a, answers k p a ∧ r = restore_on a k p.

(** Lines 268-386 on switcher [k], as a relation. *)
Definition sets_up (k : nat) (p : page) (r : outcome) : Prop :=
  match switchers p !! k with
  | None => r = Completed p
  | Some sw =>
      if has_toggle sw && has_menu sw
      then restores k (set_switcher k (set_listening sw) p) r
      else r = Completed p
  end.

(** [switchers.forEach] over the switchers [ks], as a relation: an exception
    ends the loop. *)
Inductive initialises : list nat → page → outcome → Prop :=
| initialises_nil p :
    initialises [] p (Completed p)
| initialises_next k ks p p1 r :
    sets_up k p (Completed p1) →
    initialises ks p1 r →
    initialises (k :: ks) p r
| initialises_stop k ks p e p1 :
    sets_up k p (Threw e p1) →
    initialises (k :: ks) p (Threw e p1).

(** ** User events *)

Inductive user_event : Type :=
| Click (target : node)
| KeyDown (key : string).

Definition is_listening (k : nat) (p : page) : bool :=
  match switchers p !! k with
  | Some sw => listening sw
  | None => false
  end.

(** The click reaches [document]: the listener of every switcher runs. *)
Definition bubble_to_document (target : node) (p : page) : page :=
  set_switchers (imap (document_click target) (switchers p)) p.

(** One user event, through the listeners it reaches. An exception in a
    listener is reported and the event goes on to the next listener; the
    toggle's listener stops the propagation (line 278). A key goes to the
    menu that holds the focused element. *)
Definition dispatch (ev : user_event) (p : page) : page :=
  match ev with
  | Click (Item k i) =>
      bubble_to_document (Item k i)
        (if is_listening k p then page_of (item_click k i p) else p)
  | Click (Toggle k) =>
      if is_listening k p then page_of (toggle_click k p)
      else bubble_to_document (Toggle k) p
  | Click target => bubble_to_document target p
  | KeyDown key =>
      match activeElement p with
      | Item k _ =>
          if is_listening k p then page_of (menu_keydown k key p) else p
      | _ => p
      end
  end.

Fixpoint press (n : nat) (key : string) (p : page) : page :=
  match n with
  | 0 => p
  | S n' => press n' key (dispatch (KeyDown key) p)
  end.

(** ** The operations of the specification, on the listeners above *)

(** The option of switcher [k] that declares code [c]. *)
Definition option_of_code (c : string) (sw : switcher) : option nat :=
  fst <$> list_find (λ it, data_lang it = Some c) (items sw).

(** [select(code)]: the source has no such function; a selection is the click
    on the option that declares the code, and a code no option declares has
    no element to click. *)
Definition select (k : nat) (c : string) (p : page) : page :=
  match switchers p !! k with
  | Some sw =>
      match option_of_code c sw with
      | Some i => dispatch (Click (Item k i)) p
      | None => p
      end
  | None => p
  end.

(** [SelectorState.selectedCode]: the code of the option marked active. *)
Definition selectedCode (sw : switcher) : option string :=
  (snd <$> list_find (λ it, is_active it = true) (items sw)) ≫= data_lang.

Definition active_flags (sw : switcher) : list bool := is_active <$> items sw.

(** Code [c] is declared by an option of the switcher. *)
Definition declared (c : string) (sw : switcher) : Prop :=
  ∃ it, it ∈ items sw ∧ data_lang it = Some c.

(** The switcher [k] as [restore] leaves it. *)
Definition restored_switcher (k : nat) (p : page) : option switcher :=
  restore k p ≫= λ r, switchers (page_of r) !! k.

(** The ARIA contract of the toggle: its [aria-expanded] attribute says
    whether the switcher is open. *)
Definition aria_mirrors (sw : switcher) : Prop :=
  aria_expanded sw = Some (if is_open sw then "true" else "false").

(** The switcher after the toggle's listener: [classList.toggle('is-open')]
    and [aria-expanded] set to the new state. *)
Definition toggled (sw : switcher) : switcher :=
  set_aria_expanded (if negb (is_open sw) then "true" else "false")
                    (set_open (negb (is_open sw)) sw).

(** ** Example pages *)

Definition english : item := mkItem (Some "en-US") (Some "English") false.
Definition arabic : item := mkItem (Some "ar-EG") (Some "العربية") false.
Definition french : item := mkItem (Some "fr-FR") (Some "Français") false.

(** A switcher with its toggle, menu and label element, listeners attached. *)
Definition example_switcher (open : bool) (its : list item) : switcher :=
  mkSwitcher open true (Some (if open then "true" else "false")) true
             its (Some "English") true.

(** The same markup before [initLanguageSwitcher] has run. *)
Definition fresh_switcher (its : list item) : switcher :=
  mkSwitcher false true None true its (Some "English") false.

(** A header switcher (open, focus on its first option) and a second one in
    the mobile menu (closed). *)
Definition example_page (st : Storage) : page :=
  mkPage [example_switcher true [english; arabic];
          example_switcher false [english; arabic; french]]
         st None (Item 0 0) [].

(** The page as loaded, no listener attached yet. *)
Definition fresh_page (st : Storage) : page :=
  mkPage [fresh_switcher [english; arabic];
          fresh_switcher [english; arabic; french]]
         st None Elsewhere [].

(** An option whose code is the empty string. *)
Definition automatic : item := mkItem (Some "") (Some "Auto") false.

(** A page whose only switcher offers [english] and [automatic]. *)
Definition automatic_page (st : Storage) : page :=
  mkPage [example_switcher false [english; automatic]] st None Elsewhere [].

Definition storage_holding (es : gmap string string) : Storage :=
  mkStorage es false false.

(** Storage that cannot take another value. *)
Definition full_storage : Storage := mkStorage ∅ false true.

(** Storage the page may not touch. *)
Definition denied_storage : Storage := mkStorage ∅ true false.

(** An option whose code holds a backslash, so that the selector of line
    368 does not denote the code. *)
Definition escaped : item := mkItem (Some "fr\FR") (Some "Français") false.

(** A page, not yet set up, whose first switcher declares [escaped]; the
    second switcher has no toggle. *)
Definition escaped_page (st : Storage) : page :=
  mkPage [fresh_switcher [english; escaped];
          mkSwitcher false false None true [english; arabic] None false]
         st (Some "rtl") Elsewhere [].

(** * The other widgets of [assets/js/main.js] *)

(** ** The mobile menu, [initMobileMenu] (lines 187-259) *)

Module MobileMenu.

(** A [.mobile-menu__lang] button. *)
Record lang_button : Type := mkLangButton {
  btn_lang : option string;   (* btn.dataset.lang *)
  btn_active : bool           (* 'is-active' in btn.classList *)
}.

(** Modelled from the spec: the page markup, which is not among the
    sources. The controls of the mobile menu lie outside every
    [.lang-switcher], and a [.mobile-menu__lang] button is neither a
    [.mobile-menu__item] nor a [.mobile-menu__btn]. *)
Record mobile : Type := mkMobile {
  has_menuBtn : bool;             (* a .header__menu-btn exists *)
  has_mobileMenu : bool;          (* #mobileMenu exists *)
  has_closeBtn : bool;            (* a .mobile-menu__close exists *)
  has_overlay : bool;             (* a .mobile-menu__overlay exists *)
  menu_open : bool;               (* 'is-open' in mobileMenu.classList *)
  btn_expanded : option string;   (* menuBtn 'aria-expanded' *)
  menu_hidden : option string;    (* mobileMenu 'aria-hidden' *)
  body_overflow : string;         (* document.body.style.overflow *)
  langBtns : list lang_button;
  attached : bool                 (* the listeners of lines 212-258 are attached *)
}.

(** The page of the switchers together with the mobile menu. *)
Record site : Type := mkSite {
  doc : page;
  menu : mobile
}.

Inductive result : Type :=
| Done (s : site)
| Failed (e : exn) (s : site).

Definition site_of (r : result) : site :=
  match r with
  | Done s => s
  | Failed _ s => s
  end.

Definition set_state (open : bool) (expanded hidden overflow : string)
           (m : mobile) : mobile :=
  mkMobile (has_menuBtn m) (has_mobileMenu m) (has_closeBtn m) (has_overlay m)
           open (Some expanded) (Some hidden) overflow (langBtns m) (attached m).

Definition set_langBtns (btns : list lang_button) (m : mobile) : mobile :=
  mkMobile (has_menuBtn m) (has_mobileMenu m) (has_closeBtn m) (has_overlay m)
           (menu_open m) (btn_expanded m) (menu_hidden m) (body_overflow m)
           btns (attached m).

(** Lines 197-202. *)
Definition openMenu (m : mobile) : mobile :=
  set_state true "true" "false" "hidden" m.

(** Lines 204-209. *)
Definition closeMenu (m : mobile) : mobile :=
  set_state false "false" "true" "" m.

(** Lines 212-219: the click listener of the menu button. *)
Definition menuBtn_click (m : mobile) : mobile :=
  let isOpen := menu_open m in
  if isOpen then closeMenu m else openMenu m.

(** [langBtns.forEach(b => b.classList.remove('is-active'));
    btn.classList.add('is-active')] *)
Definition activate_button (i : nat) (btns : list lang_button)
  : list lang_button :=
  alter (λ b, mkLangButton (btn_lang b) true) i
        ((λ b, mkLangButton (btn_lang b) false) <$> btns).

(** Lines 238-250: the click listener of the language button at index
    [i]. *)
Definition langBtn_click (i : nat) (s : site) : result :=
  match langBtns (menu s) !! i with
  | None => Done s
  | Some btn =>
      let lang := btn_lang btn in
      let m1 := set_langBtns (activate_button i (langBtns (menu s))) (menu s) in
      match setItem (localStorage (doc s)) preferredLanguage (ToString lang) with
      | inl e => Failed e (mkSite (doc s) m1)
      | inr st =>
          Done (mkSite (dispatchEvent (mkEvent "languageChange" lang None)
                          (set_localStorage st (doc s)))
                       m1)
      end
  end.

(** Lines 254-258: the keydown listener on [document]. *)
Definition document_keydown (key : string) (m : mobile) : mobile :=
  if String.eqb key "Escape" && menu_open m then closeMenu m else m.

(** Lines 187-259, the setup. *)
Definition initMobileMenu (m : mobile) : mobile :=
  if negb (has_menuBtn m) || negb (has_mobileMenu m) then m
  else mkMobile (has_menuBtn m) (has_mobileMenu m) (has_closeBtn m)
                (has_overlay m) (menu_open m) (btn_expanded m) (menu_hidden m)
                (body_overflow m) (langBtns m) true.

(** The controls of the mobile menu a user can click. *)
Inductive control : Type :=
| MenuBtn
| CloseBtn
| Overlay
| MenuItem            (* a .mobile-menu__item or .mobile-menu__btn *)
| LangBtn (i : nat).

(** The listener of a control, where one is attached; the close button and
    the overlay have theirs only if they exist. *)
Definition control_click (c : control) (s : site) : site :=
  if attached (menu s) then
    match c with
    | MenuBtn => mkSite (doc s) (menuBtn_click (menu s))
    | CloseBtn =>
        if has_closeBtn (menu s) then mkSite (doc s) (closeMenu (menu s)) else s
    | Overlay =>
        if has_overlay (menu s) then mkSite (doc s) (closeMenu (menu s)) else s
    | MenuItem => mkSite (doc s) (closeMenu (menu s))
    | LangBtn i => site_of (langBtn_click i s)
    end
  else s.

Inductive site_event : Type :=
| ClickControl (c : control)   (* a click on a control of the mobile menu *)
| OnPage (ev : user_event).    (* a click elsewhere, or a key *)

(** One user event on the whole site. A click on a control of the mobile
    menu goes on to [document], where the switchers listen; a key goes to
    the menu of the focused option and then to [document], where the
    mobile menu listens. *)
Definition site_dispatch (ev : site_event) (s : site) : site :=
  match ev with
  | ClickControl c =>
      let s1 := control_click c s in
      mkSite (bubble_to_document Elsewhere (doc s1)) (menu s1)
  | OnPage (Click target) => mkSite (dispatch (Click target) (doc s)) (menu s)
  | OnPage (KeyDown key) =>
      mkSite (dispatch (KeyDown key) (doc s))
             (if attached (menu s) then document_keydown key (menu s)
              else menu s)
  end.

(** [aria-expanded], [aria-hidden] and the scroll lock of the body agree
    with the open state. *)
Definition consistent (m : mobile) : Prop :=
  btn_expanded m = Some (if menu_open m then "true" else "false")
  ∧ menu_hidden m = Some (if menu_open m then "false" else "true")
  ∧ body_overflow m = (if menu_open m then "hidden" else "").

Definition example_mobile (open : bool) : mobile :=
  mkMobile true true true true open
           (Some (if open then "true" else "false"))
           (Some (if open then "false" else "true"))
           (if open then "hidden" else "")
           [mkLangButton (Some "en-US") true; mkLangButton (Some "ar-EG") false;
            mkLangButton (Some "fr-FR") false]
           true.

End MobileMenu.

(** A mobile menu, open, with a button for a code ("de-DE") that no switcher
    of [example_page] declares. *)
Definition german_mobile : MobileMenu.mobile :=
  MobileMenu.mkMobile true true true true true
    (Some "true") (Some "false") "hidden"
    [MobileMenu.mkLangButton (Some "en-US") true;
     MobileMenu.mkLangButton (Some "de-DE") false]
    true.

(** ** The help panel, [initTroubleToggle] (lines 480-497) *)

Module TroubleToggle.

Record trouble : Type := mkTrouble {
  has_toggleBtn : bool;           (* #troubleToggle exists *)
  has_tipsPanel : bool;           (* #troubleTips exists *)
  toggle_expanded : option string;(* toggleBtn 'aria-expanded' *)
  tips_hidden : bool;             (* tipsPanel has the 'hidden' attribute *)
  attached : bool                 (* the click listener is attached *)
}.

(** Lines 486-496: the click listener. [!isExpanded] is written into the
    attribute as "true" or "false". *)
Definition toggleBtn_click (t : trouble) : trouble :=
  if attached t then
    let isExpanded := bool_decide (toggle_expanded t = Some "true") in
    mkTrouble (has_toggleBtn t) (has_tipsPanel t)
              (Some (if negb isExpanded then "true" else "false"))
              isExpanded
              (attached t)
  else t.

Definition initTroubleToggle (t : trouble) : trouble :=
  if negb (has_toggleBtn t) || negb (has_tipsPanel t) then t
  else mkTrouble (has_toggleBtn t) (has_tipsPanel t) (toggle_expanded t)
                 (tips_hidden t) true.

Fixpoint clicks (n : nat) (t : trouble) : trouble :=
  match n with
  | 0 => t
  | S n' => clicks n' (toggleBtn_click t)
  end.

End TroubleToggle.

(** ** Form validation, [initFormValidation] (lines 452-474) *)

Module FormValidation.

(** The code units that [String.prototype.trim] removes: the white space and
    the line terminators of ECMAScript. *)
Definition is_white_space (c : N) : bool :=
  (* tab, line feed, vertical tab, form feed, carriage return *)
  ((9 <=? c) && (c <=? 13)
  (* space, no-break space, ogham space mark *)
  || (c =? 32) || (c =? 160) || (c =? 5760)
  (* en quad ... hair space *)
  || ((8192 <=? c) && (c <=? 8202))
  (* line separator, paragraph separator, narrow no-break space *)
  || (c =? 8232) || (c =? 8233) || (c =? 8239)
  (* medium mathematical space, ideographic space, byte order mark *)
  || (c =? 8287) || (c =? 12288) || (c =? 65279))%N.

Fixpoint trimStart (v : list N) : list N :=
  match v with
  | [] => []
  | c :: v' => if is_white_space c then trimStart v' else v
  end.

Definition trimEnd (v : list N) : list N := rev (trimStart (rev v)).

(** [v.trim()], on the UTF-16 code units of the string. *)
Definition trim (v : list N) : list N := trimEnd (trimStart v).

(** An element of the form; [required] says whether it matches
    [[required]]. *)
Record field : Type := mkField {
  required : bool;
  value : list N;        (* field.value *)
  is_invalid : bool      (* 'is-invalid' in field.classList *)
}.

Record form : Type := mkForm {
  data_validate : bool;  (* the form matches form[data-validate] *)
  fields : list field
}.

Definition set_invalid (b : bool) (f : field) : field :=
  mkField (required f) (value f) b.

(** Lines 460-467: the callback of [requiredFields.forEach], with the
    variable [isValid] passed along. The empty string is the only falsy
    one. *)
Definition check_field (isValid : bool) (f : field) : bool * field :=
  match trim (value f) with
  | [] => (false, set_invalid true f)
  | _ :: _ => (isValid, set_invalid false f)
  end.

Fixpoint check_fields (isValid : bool) (fs : list field) : bool * list field :=
  match fs with
  | [] => (isValid, [])
  | f :: fs' =>
      if required f then
        let '(isValid1, f') := check_field isValid f in
        let '(isValid2, fs'') := check_fields isValid1 fs' in
        (isValid2, f' :: fs'')
      else
        let '(isValid2, fs'') := check_fields isValid fs' in
        (isValid2, f :: fs'')
  end.

(** Lines 456-472: the submit listener; the second component says whether
    [e.preventDefault()] was called. A form without [data-validate] has no
    listener. *)
Definition submit (fm : form) : form * bool :=
  if data_validate fm then
    let '(isValid, fs) := check_fields true (fields fm) in
    (mkForm (data_validate fm) fs, negb isValid)
  else (fm, false).

(** The value is empty or made of white space only. *)
Definition blank (v : list N) : bool := forallb is_white_space v.

(** The field as the submit listener leaves it: a required field is marked
    invalid exactly when its value is blank. *)
Definition marked (f : field) : field :=
  if required f then set_invalid (blank (value f)) f else f.

(** The field does not stop the submission. *)
Definition acceptable (f : field) : bool :=
  negb (required f) || negb (blank (value f)).

End FormValidation.

(** ** The video player, [initVideoPlayer] (lines 393-447) *)

Module VideoPlayer.

Record video_el : Type := mkVideo {
  controls : bool;        (* video.controls *)
  currentTime : Q;        (* video.currentTime, in seconds *)
  play_calls : nat        (* how many times video.play() was called *)
}.

Record iframe_el : Type := mkIframe {
  data_src : option string;   (* iframe.dataset.src *)
  src : option string         (* the 'src' attribute; [iframe.src] is the
                                 empty string exactly when it is missing *)
}.

Record wrapper : Type := mkWrapper {
  has_playBtn : bool;         (* a .video-play-btn exists *)
  has_thumbnail : bool;       (* a .video-thumbnail exists *)
  is_playing : bool;          (* 'is-playing' in wrapper.classList *)
  video : option video_el;    (* the .video-player *)
  iframe : option iframe_el   (* the .video-iframe *)
}.

(** Lines 404-421. *)
Definition playVideo (w : wrapper) : wrapper :=
  match video w with
  | Some v =>
      mkWrapper (has_playBtn w) (has_thumbnail w) true
                (Some (mkVideo true (currentTime v) (S (play_calls v))))
                (iframe w)
  | None =>
      match iframe w with
      | Some f =>
          let videoSrc := data_src f in
          let f' := if truthy videoSrc && negb (bool_decide (is_Some (src f)))
                    then mkIframe (data_src f) videoSrc
                    else f in
          mkWrapper (has_playBtn w) (has_thumbnail w) true (video w) (Some f')
      | None => w
      end
  end.

(** Lines 440-444: the listener of the video's 'ended' event. *)
Definition video_ended (v : video_el) (w : wrapper) : wrapper :=
  mkWrapper (has_playBtn w) (has_thumbnail w) false
            (Some (mkVideo false 0%Q (play_calls v)))
            (iframe w).

Inductive player_event : Type :=
| ClickPlay             (* click on the play button *)
| ClickThumbnail        (* click on the thumbnail *)
| KeyOnPlay (key : string)   (* keydown on the play button *)
| Ended.                (* the video reached its end *)

(** The listeners of lines 423-445; none is attached without a play
    button. *)
Definition player_step (ev : player_event) (w : wrapper) : wrapper :=
  if has_playBtn w then
    match ev with
    | ClickPlay => playVideo w
    | ClickThumbnail => if has_thumbnail w then playVideo w else w
    | KeyOnPlay key =>
        if String.eqb key "Enter" || String.eqb key " " then playVideo w else w
    | Ended =>
        match video w with
        | Some v => video_ended v w
        | None => w
        end
    end
  else w.

End VideoPlayer.

(** ** The header on scroll, [initHeaderScroll] (lines 101-124) *)

Module HeaderScroll.

Record header_state : Type := mkHeader {
  scrollY : Q;        (* window.scrollY *)
  scrolled : bool;    (* 'header--scrolled' in header.classList *)
  ticking : bool;
  requested : nat     (* callbacks given to requestAnimationFrame, not yet run *)
}.

(** [window.scrollY > 10] *)
Definition past_threshold (y : Q) : bool :=
  if Qlt_le_dec 10 y then true else false.

(** Lines 108-116. *)
Definition updateHeader (s : header_state) : header_state :=
  mkHeader (scrollY s) (past_threshold (scrollY s)) false (requested s).

(** Lines 118-123: the scroll listener. *)
Definition on_scroll (s : header_state) : header_state :=
  if negb (ticking s)
  then mkHeader (scrollY s) (scrolled s) true (S (requested s))
  else s.

Inductive window_event : Type :=
| Scroll (y : Q)      (* the window is scrolled to [y] *)
| Frame.              (* the browser runs one requested callback *)

Definition window_step (ev : window_event) (s : header_state) : header_state :=
  match ev with
  | Scroll y =>
      on_scroll (mkHeader y (scrolled s) (ticking s) (requested s))
  | Frame =>
      match requested s with
      | 0 => s
      | S n =>
          updateHeader (mkHeader (scrollY s) (scrolled s) (ticking s) n)
      end
  end.

Definition run (evs : list window_event) (s : header_state) : header_state :=
  fold_left (λ s ev, window_step ev s) evs s.

(** The header right after [initHeaderScroll], at scroll position [y]. *)
Definition initial (y : Q) (cls : bool) : header_state := mkHeader y cls false 0.

(** At most one callback is requested, and [ticking] says whether one is. *)
Definition throttled (s : header_state) : Prop :=
  (ticking s = false ∧ requested s = 0) ∨ (ticking s = true ∧ requested s = 1).

End HeaderScroll.

(** * Properties *)

(** ** The option list under [activate_only] *)

Lemma activate_only_length i its : length (activate_only i its) = length its.
Proof. unfold activate_only. by rewrite length_alter, length_fmap. Qed.

Lemma activate_only_lookup i its it :
  its !! i = Some it → activate_only i its !! i = Some (set_active true it).
Proof.
  intros Hit. unfold activate_only.
  rewrite list_lookup_alter_eq, list_lookup_fmap, Hit. done.
Qed.

Lemma activate_only_lookup_ne i j its :
  i ≠ j → activate_only i its !! j = set_active false <$> its !! j.
Proof.
  intros Hne. unfold activate_only.
  by rewrite list_lookup_alter_ne, list_lookup_fmap.
Qed.

Lemma activate_only_flags i its :
  is_active <$> activate_only i its = <[i := true]> (replicate (length its) false).
Proof.
  unfold activate_only. revert i.
  induction its as [|it its IH]; intros [|i]; simpl; try done.
  - f_equal. clear IH. induction its as [|? ? IH]; simpl; [done|by f_equal].
  - f_equal. apply IH.
Qed.

Lemma activate_only_data_lang i its :
  data_lang <$> activate_only i its = data_lang <$> its.
Proof.
  unfold activate_only. revert i.
  induction its as [|it its IH]; intros [|i]; simpl; try done.
  - f_equal. clear IH. induction its as [|? ? IH]; simpl; [done|by f_equal].
  - f_equal. apply IH.
Qed.

Lemma activate_only_data_label i its :
  data_label <$> activate_only i its = data_label <$> its.
Proof.
  unfold activate_only. revert i.
  induction its as [|it its IH]; intros [|i]; simpl; try done.
  - f_equal. clear IH. induction its as [|? ? IH]; simpl; [done|by f_equal].
  - f_equal. apply IH.
Qed.

Lemma activate_only_find i its it :
  its !! i = Some it →
  list_find (λ x, is_active x = true) (activate_only i its)
  = Some (i, set_active true it).
Proof.
  intros Hit. apply list_find_Some. split_and!.
  - by apply activate_only_lookup.
  - done.
  - intros j y Hy Hlt. rewrite activate_only_lookup_ne in Hy by lia.
    destruct (its !! j); simplify_eq/=. done.
Qed.

(** ** Switchers of a page *)

Lemma lookup_set_switcher k sw p :
  k < length (switchers p) → switchers (set_switcher k sw p) !! k = Some sw.
Proof. intros Hk. simpl. by apply list_lookup_insert_eq. Qed.

Lemma lookup_set_switcher_ne k j sw p :
  k ≠ j → switchers (set_switcher k sw p) !! j = switchers p !! j.
Proof. intros Hne. simpl. by apply list_lookup_insert_ne. Qed.

Lemma lookup_bubble_to_document target p j :
  switchers (bubble_to_document target p) !! j
  = document_click target j <$> switchers p !! j.
Proof. simpl. apply list_lookup_imap. Qed.

Lemma document_click_inside target k sw :
  contains k target = true → document_click target k sw = sw.
Proof.
  intros Hin. unfold document_click. rewrite Hin.
  by rewrite andb_false_r.
Qed.

Lemma document_click_outside target k sw :
  listening sw = true → contains k target = false →
  document_click target k sw = close sw.
Proof. intros Hl Hout. unfold document_click. by rewrite Hl, Hout. Qed.

Lemma set_currentLabel_items label sw :
  items (set_currentLabel label sw) = items sw.
Proof. unfold set_currentLabel. by destruct (currentLabel sw). Qed.

Lemma set_currentLabel_text label sw :
  currentLabel (set_currentLabel label sw)
  = (λ _, textContent_value label) <$> currentLabel sw.
Proof.
  unfold set_currentLabel. destruct (currentLabel sw) eqn:E; [reflexivity|].
  by rewrite E.
Qed.

Lemma set_currentLabel_open label sw :
  is_open (set_currentLabel label sw) = is_open sw.
Proof. unfold set_currentLabel. by destruct (currentLabel sw). Qed.

Lemma set_currentLabel_listening label sw :
  listening (set_currentLabel label sw) = listening sw.
Proof. unfold set_currentLabel. by destruct (currentLabel sw). Qed.

(** The click listener of an item, when the write to [localStorage] is
    accepted. *)
Lemma item_click_accepted k i p sw it :
  switchers p !! k = Some sw →
  items sw !! i = Some it →
  access_denied (localStorage p) = false →
  rejects_writes (localStorage p) = false →
  let sw2 := set_items (activate_only i (items sw))
                       (set_currentLabel (data_label it) sw) in
  item_click k i p
  = Completed
      (set_dir (if decide (data_lang it = Some "ar-EG") then "rtl" else "ltr")
         (dispatchEvent (mkEvent "languageChange" (data_lang it) (data_label it))
            (set_switcher k (close sw2)
               (set_localStorage
                  (mkStorage (<[preferredLanguage := ToString (data_lang it)]>
                                (entries (localStorage p))) false false)
                  (set_switcher k sw2 p))))).
Proof.
  intros Hsw Hit Hden Hrej. unfold item_click. rewrite Hsw, Hit. cbn zeta.
  rewrite set_currentLabel_items. unfold setItem.
  cbn [localStorage set_switcher set_switchers].
  rewrite Hden, Hrej. by case_decide.
Qed.

(** The click listener of an item, when the write throws. *)
Lemma item_click_rejected k i p sw it :
  switchers p !! k = Some sw →
  items sw !! i = Some it →
  access_denied (localStorage p) || rejects_writes (localStorage p) = true →
  ∃ e, item_click k i p
       = Threw e (set_switcher k
                    (set_items (activate_only i (items sw))
                               (set_currentLabel (data_label it) sw)) p).
Proof.
  intros Hsw Hit Hbad. unfold item_click. rewrite Hsw, Hit.
  rewrite set_currentLabel_items. unfold setItem.
  cbn [localStorage set_switcher set_switchers].
  destruct (access_denied (localStorage p)); [by eexists|].
  simpl in Hbad. rewrite Hbad. by eexists.
Qed.

(** ** Selecting an option *)

(** C1 (amended). For a switcher whose listeners are attached and an option
    with code [c] and label [l], a click on that option, when the write to
    [localStorage] is accepted, marks that option active and all others
    inactive, sets the text of the current-label element (where the page has
    one) to [l], stores [c] under the preference key, closes the dropdown and
    dispatches exactly one "languageChange" event with
    [{lang: c, label: l}]. *)
Theorem select_option_effects k i p sw it c l :
  switchers p !! k = Some sw →
  listening sw = true →
  items sw !! i = Some it →
  data_lang it = Some c →
  data_label it = Some l →
  access_denied (localStorage p) = false →
  rejects_writes (localStorage p) = false →
  ∃ sw', switchers (dispatch (Click (Item k i)) p) !! k = Some sw'
    ∧ active_flags sw' = <[i := true]> (replicate (length (items sw)) false)
    ∧ data_lang <$> items sw' = data_lang <$> items sw
    ∧ currentLabel sw' = (λ _, l) <$> currentLabel sw
    ∧ entries (localStorage (dispatch (Click (Item k i)) p)) !! preferredLanguage
      = Some c
    ∧ is_open sw' = false
    ∧ aria_expanded sw' = Some "false"
    ∧ dispatched (dispatch (Click (Item k i)) p)
      = dispatched p ++ [mkEvent "languageChange" (Some c) (Some l)].
Proof.
  intros Hsw Hl Hit Hc Hlab Hden Hrej.
  assert (Hk : k < length (switchers p)) by (by eapply lookup_lt_Some).
  unfold dispatch, is_listening. rewrite Hsw, Hl.
  rewrite (item_click_accepted k i p sw it Hsw Hit Hden Hrej).
  cbn [page_of]. eexists. split.
  { rewrite lookup_bubble_to_document.
    cbn [switchers set_dir dispatchEvent set_switcher set_switchers
         set_localStorage].
    rewrite list_lookup_insert_eq by (by rewrite length_insert).
    cbn [fmap option_fmap option_map].
    rewrite document_click_inside; [done|]. cbn. by apply bool_decide_eq_true. }
  cbn. rewrite set_currentLabel_text, Hc, Hlab.
  rewrite activate_only_flags, activate_only_data_lang.
  split_and!; try done.
  by rewrite lookup_insert_eq.
Qed.

Lemma select_option_effects_witness :
  ∃ sw', switchers (dispatch (Click (Item 0 1)) (example_page (storage_holding ∅)))
           !! 0 = Some sw'
    ∧ active_flags sw' = [false; true]
    ∧ data_lang <$> items sw' = [Some "en-US"; Some "ar-EG"]
    ∧ currentLabel sw' = Some "العربية"
    ∧ entries (localStorage (dispatch (Click (Item 0 1))
                               (example_page (storage_holding ∅))))
        !! preferredLanguage = Some "ar-EG"
    ∧ is_open sw' = false
    ∧ aria_expanded sw' = Some "false"
    ∧ dispatched (dispatch (Click (Item 0 1)) (example_page (storage_holding ∅)))
      = [mkEvent "languageChange" (Some "ar-EG") (Some "العربية")].
Proof.
  apply (select_option_effects 0 1 (example_page (storage_holding ∅))
           (example_switcher true [english; arabic]) arabic
           "ar-EG" "العربية"); reflexivity.
Defined.

(** C1 as stated fails when [setItem] throws: the click on the Arabic option
    of the open header switcher, with storage that takes no more values,
    leaves the dropdown open, stores nothing and dispatches no event; only
    the label and the active flags have changed. *)
Lemma select_option_rejected_write :
  (is_open <$> switchers (dispatch (Click (Item 0 1)) (example_page full_storage))
               !! 0) = Some true
  ∧ entries (localStorage (dispatch (Click (Item 0 1)) (example_page full_storage)))
      !! preferredLanguage = None
  ∧ dispatched (dispatch (Click (Item 0 1)) (example_page full_storage)) = []
  ∧ (active_flags <$> switchers (dispatch (Click (Item 0 1))
                                   (example_page full_storage)) !! 0)
    = Some [false; true].
Proof. vm_compute. done. Qed.

Lemma declared_option_of_code c sw :
  declared c sw →
  ∃ i it, option_of_code c sw = Some i
          ∧ items sw !! i = Some it ∧ data_lang it = Some c.
Proof.
  intros (it & Hin & Hc). unfold option_of_code.
  destruct (list_find_elem_of (λ x, data_lang x = Some c) (items sw) it Hin Hc)
    as [[i it'] Hfind].
  rewrite Hfind. apply list_find_Some in Hfind as (Hi & Hc' & _).
  by exists i, it'.
Qed.

Lemma undeclared_option_of_code c sw :
  ¬ declared c sw → option_of_code c sw = None.
Proof.
  intros Hnd. unfold option_of_code.
  destruct (list_find _ _) as [[i it]|] eqn:Hfind; [|done].
  apply list_find_Some in Hfind as (Hi & Hc & _).
  exfalso. apply Hnd. exists it. split; [|done].
  by eapply list_elem_of_lookup_2.
Qed.

(** C3 (amended). For a switcher whose listeners are attached and a declared
    code [c], after [select(c)] whose write to [localStorage] is accepted the
    [dir] attribute of the root element is "rtl" if [c] is "ar-EG" and "ltr"
    for every other code. *)
Theorem select_sets_direction k p sw c :
  switchers p !! k = Some sw →
  listening sw = true →
  declared c sw →
  access_denied (localStorage p) = false →
  rejects_writes (localStorage p) = false →
  dir (select k c p) = Some (if decide (c = "ar-EG") then "rtl" else "ltr").
Proof.
  intros Hsw Hl Hdecl Hden Hrej.
  destruct (declared_option_of_code c sw Hdecl) as (i & it & Hopt & Hit & Hc).
  unfold select. rewrite Hsw, Hopt.
  unfold dispatch, is_listening. rewrite Hsw, Hl.
  rewrite (item_click_accepted k i p sw it Hsw Hit Hden Hrej).
  cbn. rewrite Hc.
  destruct (decide (c = "ar-EG")) as [->|Hne].
  - by rewrite decide_True.
  - rewrite decide_False; [done|]. by intros [= ?].
Qed.

Lemma select_sets_direction_witness :
  dir (select 0 "ar-EG" (example_page (storage_holding ∅))) = Some "rtl"
  ∧ dir (select 1 "fr-FR" (example_page (storage_holding ∅))) = Some "ltr".
Proof.
  split.
  - apply (select_sets_direction 0 (example_page (storage_holding ∅))
             (example_switcher true [english; arabic]) "ar-EG");
      try reflexivity.
    exists arabic. split; [|reflexivity]. apply list_elem_of_In. simpl. tauto.
  - apply (select_sets_direction 1 (example_page (storage_holding ∅))
             (example_switcher false [english; arabic; french]) "fr-FR");
      try reflexivity.
    exists french. split; [|reflexivity]. apply list_elem_of_In. simpl. tauto.
Defined.

(** C3 as stated fails when [setItem] throws: the statement that sets [dir]
    comes after the write, so selecting "ar-EG" leaves the attribute absent,
    and selecting "en-US" on a right-to-left page leaves it "rtl". *)
Lemma select_direction_rejected_write :
  dir (select 0 "ar-EG" (example_page full_storage)) = None
  ∧ dir (select 0 "en-US" (set_dir "rtl" (example_page full_storage)))
    = Some "rtl".
Proof. vm_compute. done. Qed.

(** ** Keyboard navigation *)

(** [itemsArray[(n) % itemsArray.length]] on a non-empty array. *)
Lemma js_index_rem {A : Type} (arr : list A) (n : nat) :
  0 < length arr →
  js_index arr (js_rem (Z.of_nat n) (Z.of_nat (length arr)))
  = Some (n mod length arr).
Proof.
  intros Hlen. unfold js_rem, js_index.
  destruct (Z.eqb_spec (Z.of_nat (length arr)) 0) as [Hz|Hz]; [lia|].
  rewrite Z.rem_mod_nonneg by lia.
  rewrite <- Nat2Z.inj_mod.
  destruct (Z.ltb_spec (Z.of_nat (n mod length arr)) 0) as [?|_]; [lia|].
  rewrite Nat2Z.id.
  rewrite decide_True; [done|]. apply Nat.mod_upper_bound. lia.
Qed.

Lemma focus_activeElement p : focus (activeElement p) p = p.
Proof. by destruct p. Qed.

Lemma keydown_ArrowDown k sw p i :
  switchers p !! k = Some sw →
  listening sw = true →
  activeElement p = Item k i →
  i < length (items sw) →
  dispatch (KeyDown "ArrowDown") p
  = focus (Item k ((i + 1) mod length (items sw))) p.
Proof.
  intros Hsw Hl Hfocus Hi. unfold dispatch, is_listening.
  rewrite Hfocus, Hsw, Hl. unfold menu_keydown. rewrite Hsw.
  cbn [String.eqb Ascii.eqb Bool.eqb]. unfold indexOf_focused. rewrite Hfocus.
  rewrite !decide_True by done. unfold focus_item.
  replace (Z.of_nat i + 1)%Z with (Z.of_nat (i + 1)) by lia.
  rewrite js_index_rem by lia. done.
Qed.

Lemma press_ArrowDown k sw n : ∀ p i,
  switchers p !! k = Some sw →
  listening sw = true →
  activeElement p = Item k i →
  i < length (items sw) →
  press n "ArrowDown" p = focus (Item k ((i + n) mod length (items sw))) p.
Proof.
  induction n as [|n IH]; intros p i Hsw Hl Hfocus Hi.
  - cbn [press]. rewrite Nat.add_0_r, Nat.mod_small by done.
    by rewrite <- Hfocus, focus_activeElement.
  - cbn [press]. rewrite (keydown_ArrowDown k sw p i) by done.
    rewrite (IH _ ((i + 1) mod length (items sw))); try done.
    + rewrite Nat.Div0.add_mod_idemp_l. by replace (i + 1 + n) with (i + S n) by lia.
    + apply Nat.mod_upper_bound. lia.
Qed.

(** C7. In a switcher with listeners and N ≥ 1 options, a Down arrow with the
    focus on option [i] moves the focus to option [i + 1], and from the last
    option to the first; N Down arrows from option 0 bring the focus back to
    option 0. *)
Theorem arrow_down_cycles k sw p :
  switchers p !! k = Some sw →
  listening sw = true →
  1 ≤ length (items sw) →
  (∀ i, i < length (items sw) →
     activeElement (dispatch (KeyDown "ArrowDown") (focus (Item k i) p))
     = Item k (if decide (i + 1 = length (items sw)) then 0 else i + 1))
  ∧ activeElement (press (length (items sw)) "ArrowDown" (focus (Item k 0) p))
    = Item k 0.
Proof.
  intros Hsw Hl Hlen. split.
  - intros i Hi.
    rewrite (keydown_ArrowDown k sw (focus (Item k i) p) i) by done.
    cbn. f_equal. case_decide as Hlast.
    + rewrite Hlast. apply Nat.Div0.mod_same.
    + apply Nat.mod_small. lia.
  - rewrite (press_ArrowDown k sw _ (focus (Item k 0) p) 0)
      by (cbn; first [done | lia]).
    cbn. f_equal. apply Nat.Div0.mod_same.
Qed.

Lemma arrow_down_cycles_witness :
  activeElement (dispatch (KeyDown "ArrowDown")
                   (focus (Item 1 0) (example_page (storage_holding ∅))))
  = Item 1 1
  ∧ activeElement (dispatch (KeyDown "ArrowDown")
                     (focus (Item 1 2) (example_page (storage_holding ∅))))
    = Item 1 0
  ∧ activeElement (press 3 "ArrowDown"
                     (focus (Item 1 0) (example_page (storage_holding ∅))))
    = Item 1 0.
Proof.
  destruct (arrow_down_cycles 1 (example_switcher false [english; arabic; french])
              (example_page (storage_holding ∅)) eq_refl eq_refl)
    as [Hstep Hcycle].
  - simpl. lia.
  - split_and!.
    + apply (Hstep 0). simpl. lia.
    + apply (Hstep 2). simpl. lia.
    + exact Hcycle.
Defined.

(** ** Events that close the dropdown *)

Lemma item_click_other_switcher k k' i p :
  k' ≠ k →
  switchers (page_of (item_click k' i p)) !! k = switchers p !! k.
Proof.
  intros Hne. unfold item_click.
  destruct (switchers p !! k') as [sw'|]; [|done].
  destruct (items sw' !! i) as [it|]; [|done].
  cbn zeta. destruct (setItem _ _ _) as [e|st].
  - cbn. by apply list_lookup_insert_ne.
  - case_decide; cbn; by rewrite !list_lookup_insert_ne.
Qed.

Lemma lookup_close_outside target p k sw :
  switchers p !! k = Some sw →
  listening sw = true →
  contains k target = false →
  (is_open <$> switchers (bubble_to_document target p) !! k) = Some false.
Proof.
  intros Hsw Hl Hout. rewrite lookup_bubble_to_document, Hsw.
  cbn [fmap option_fmap option_map].
  by rewrite document_click_outside.
Qed.

(** C5 (amended). In a switcher whose listeners are attached, the dropdown is
    closed right after: the click on one of its options, when the write to
    [localStorage] is accepted; an Escape or a Tab key pressed with the focus
    on one of its options; a click outside the switcher that reaches
    [document], which is every click outside it but the one on the toggle of
    another switcher with listeners. *)
Theorem closed_after_closing_event k sw p :
  switchers p !! k = Some sw →
  listening sw = true →
  (∀ i, i < length (items sw) →
     access_denied (localStorage p) = false →
     rejects_writes (localStorage p) = false →
     (is_open <$> switchers (dispatch (Click (Item k i)) p) !! k) = Some false)
  ∧ (∀ i, activeElement p = Item k i →
       (is_open <$> switchers (dispatch (KeyDown "Escape") p) !! k) = Some false)
  ∧ (∀ i, activeElement p = Item k i →
       (is_open <$> switchers (dispatch (KeyDown "Tab") p) !! k) = Some false)
  ∧ (∀ target, contains k target = false →
       (∀ k', target = Toggle k' → is_listening k' p = false) →
       (is_open <$> switchers (dispatch (Click target) p) !! k) = Some false).
Proof.
  intros Hsw Hl.
  assert (Hk : k < length (switchers p)) by (by eapply lookup_lt_Some).
  split_and!.
  - intros i Hi Hden Hrej.
    destruct (lookup_lt_is_Some_2 (items sw) i Hi) as [it Hit].
    unfold dispatch, is_listening. rewrite Hsw, Hl.
    rewrite (item_click_accepted k i p sw it Hsw Hit Hden Hrej).
    cbn [page_of]. rewrite lookup_bubble_to_document.
    cbn [switchers set_dir dispatchEvent set_switcher set_switchers
         set_localStorage].
    rewrite list_lookup_insert_eq by (by rewrite length_insert).
    cbn [fmap option_fmap option_map].
    rewrite document_click_inside; [done|]. cbn. by apply bool_decide_eq_true.
  - intros i Hfocus. unfold dispatch, is_listening.
    rewrite Hfocus, Hsw, Hl. unfold menu_keydown. rewrite Hsw.
    cbn. by rewrite list_lookup_insert_eq.
  - intros i Hfocus. unfold dispatch, is_listening.
    rewrite Hfocus, Hsw, Hl. unfold menu_keydown. rewrite Hsw.
    cbn. by rewrite list_lookup_insert_eq.
  - intros target Hout Htoggle.
    destruct target as [k' i|k'| |]; cbn [dispatch].
    + assert (k' ≠ k) as Hne.
      { intros ->. cbn in Hout. by rewrite bool_decide_eq_true_2 in Hout. }
      apply (lookup_close_outside _ _ _ sw); [|done..].
      destruct (is_listening k' p); [|done].
      by rewrite item_click_other_switcher.
    + rewrite (Htoggle k' eq_refl). by apply (lookup_close_outside _ _ _ sw).
    + by apply (lookup_close_outside _ _ _ sw).
    + by apply (lookup_close_outside _ _ _ sw).
Qed.

Lemma closed_after_closing_event_witness :
  (is_open <$> switchers (dispatch (Click (Item 0 1))
                            (example_page (storage_holding ∅))) !! 0) = Some false
  ∧ (is_open <$> switchers (dispatch (KeyDown "Escape")
                              (example_page (storage_holding ∅))) !! 0) = Some false
  ∧ (is_open <$> switchers (dispatch (KeyDown "Tab")
                              (example_page (storage_holding ∅))) !! 0) = Some false
  ∧ (is_open <$> switchers (dispatch (Click Elsewhere)
                              (example_page (storage_holding ∅))) !! 0) = Some false.
Proof.
  destruct (closed_after_closing_event 0 (example_switcher true [english; arabic])
              (example_page (storage_holding ∅)) eq_refl eq_refl)
    as (Hselect & Hescape & Htab & Houtside).
  split_and!.
  - apply Hselect; [simpl; lia|reflexivity..].
  - apply (Hescape 0). reflexivity.
  - apply (Htab 0). reflexivity.
  - apply Houtside; [reflexivity|]. intros k' Heq. discriminate Heq.
Defined.

(** C5 as stated fails twice: with storage that takes no more values, the
    click on an option of the open header switcher leaves it open; and a
    click on the toggle of the second switcher, which is outside the header
    switcher, leaves the header switcher open, because that listener stops
    the event before it reaches [document]. *)
Lemma open_after_selection_and_outside_click :
  (is_open <$> switchers (dispatch (Click (Item 0 1)) (example_page full_storage))
               !! 0) = Some true
  ∧ contains 0 (Toggle 1) = false
  ∧ (is_open <$> switchers (dispatch (Click (Toggle 1))
                              (example_page (storage_holding ∅))) !! 0) = Some true.
Proof. vm_compute. done. Qed.

(** ** Restoring the saved preference *)

Lemma truthy_nonempty v : v ≠ "" → truthy (Some v) = true.
Proof. intros Hv. cbn. by apply negb_true_iff, String.eqb_neq. Qed.

(** [restore] when the stored value is the code of an option. *)
Lemma restore_declared k p sw v i it :
  switchers p !! k = Some sw →
  getItem (localStorage p) preferredLanguage = inr (Some v) →
  v ≠ "" →
  css_plain v = true →
  option_of_code v sw = Some i →
  items sw !! i = Some it →
  let p2 := set_switcher k (set_items (activate_only i (items sw))
                              (set_currentLabel (data_label it) sw)) p in
  restore k p
  = Some (Completed (if decide (v = "ar-EG") then set_dir "rtl" p2 else p2)).
Proof.
  intros Hsw Hget Hv Hplain Hopt Hit. unfold restore.
  rewrite Hsw, Hget, (truthy_nonempty v Hv). cbn [ToString].
  unfold querySelector_data_lang. rewrite Hplain.
  unfold option_of_code in Hopt. rewrite Hopt, Hit.
  cbn [mbind option_bind]. rewrite set_currentLabel_items.
  by case_decide.
Qed.

(** C8. With no stored preference and at least one option, [restore] marks
    the first option active and changes nothing else: the other flags, the
    label text, the stored entries, the [dir] attribute, the open state, the
    other switchers and the dispatched events stay as they are. *)
Theorem restore_default_first_option k sw it its p :
  switchers p !! k = Some sw →
  items sw = it :: its →
  getItem (localStorage p) preferredLanguage = inr None →
  ∃ p' sw', restore k p = Some (Completed p')
    ∧ switchers p' !! k = Some sw'
    ∧ active_flags sw' = true :: (is_active <$> its)
    ∧ currentLabel sw' = currentLabel sw
    ∧ is_open sw' = is_open sw
    ∧ localStorage p' = localStorage p
    ∧ dir p' = dir p
    ∧ dispatched p' = dispatched p
    ∧ (∀ j, j ≠ k → switchers p' !! j = switchers p !! j).
Proof.
  intros Hsw Hits Hget.
  assert (Hk : k < length (switchers p)) by (by eapply lookup_lt_Some).
  unfold restore. rewrite Hsw, Hget, Hits. cbn [truthy].
  eexists _, _. split; [reflexivity|]. split.
  { by apply lookup_set_switcher. }
  split_and!; try done.
  intros j Hne. by apply lookup_set_switcher_ne.
Qed.

Lemma restore_default_first_option_witness :
  ∃ p' sw', restore 0 (fresh_page (storage_holding ∅)) = Some (Completed p')
    ∧ switchers p' !! 0 = Some sw'
    ∧ active_flags sw' = [true; false]
    ∧ currentLabel sw' = Some "English"
    ∧ is_open sw' = false
    ∧ localStorage p' = storage_holding ∅
    ∧ dir p' = None
    ∧ dispatched p' = []
    ∧ (∀ j, j ≠ 0 → switchers p' !! j
                    = switchers (fresh_page (storage_holding ∅)) !! j).
Proof.
  apply (restore_default_first_option 0 (fresh_switcher [english; arabic])
           english [arabic] (fresh_page (storage_holding ∅)));
    reflexivity.
Defined.

(** C9 (amended). When the stored value is not empty, is written without
    quote, backslash or line-break characters and is the code of no option,
    [restore] changes nothing: no option becomes active, neither the stored
    one nor the first, and the label and the [dir] attribute stay as they
    are. *)
Theorem restore_undeclared_unchanged k sw v p :
  switchers p !! k = Some sw →
  getItem (localStorage p) preferredLanguage = inr (Some v) →
  v ≠ "" →
  css_plain v = true →
  ¬ declared v sw →
  restore k p = Some (Completed p).
Proof.
  intros Hsw Hget Hv Hplain Hnd. unfold restore.
  rewrite Hsw, Hget, (truthy_nonempty v Hv). cbn [ToString].
  unfold querySelector_data_lang. rewrite Hplain.
  pose proof (undeclared_option_of_code v sw Hnd) as Hopt.
  unfold option_of_code in Hopt. by rewrite Hopt.
Qed.

Lemma restore_undeclared_unchanged_witness :
  restore 0 (fresh_page (storage_holding {[ preferredLanguage := "fr-FR" ]}))
  = Some (Completed (fresh_page (storage_holding {[ preferredLanguage := "fr-FR" ]}))).
Proof.
  apply (restore_undeclared_unchanged 0 (fresh_switcher [english; arabic]) "fr-FR");
    try reflexivity.
  - discriminate.
  - intros (it & Hin & Hc). apply list_elem_of_In in Hin. simpl in Hin.
    destruct Hin as [<-|[<-|[]]]; discriminate Hc.
Defined.

(** C9 as stated fails for the empty string: stored under the preference
    key, it is the code of no option of the switcher, and [restore] takes the
    branch of the missing preference and marks the first option active. *)
Lemma restore_empty_value_activates_first :
  getItem (storage_holding {[ preferredLanguage := "" ]}) preferredLanguage
  = inr (Some "")
  ∧ (active_flags <$> switchers (fresh_page (storage_holding
                                    {[ preferredLanguage := "" ]})) !! 0)
    = Some [false; false]
  ∧ (active_flags <$> restored_switcher 0
       (fresh_page (storage_holding {[ preferredLanguage := "" ]})))
    = Some [true; false].
Proof. vm_compute. done. Qed.

Lemma getItem_after_setItem st st' key value :
  setItem st key value = inr st' → getItem st' key = inr (Some value).
Proof.
  unfold setItem, getItem. intros Hset.
  destruct (access_denied st) eqn:Hden; [done|].
  destruct (rejects_writes st); [done|].
  injection Hset as <-. cbn. by rewrite lookup_insert_eq.
Qed.

(** C4 (amended). For a declared code [c] that is not empty and is written
    without quote, backslash or line-break characters: once [c] is stored
    under the preference key, [restore] on a switcher with the same options,
    in whatever state, leaves the first option that declares [c] as the only
    active one, so that the selected code is [c], and sets the text of the
    current-label element (where the page has one) to that option's label. *)
Theorem store_then_restore k sw p c :
  switchers p !! k = Some sw →
  declared c sw →
  c ≠ "" →
  css_plain c = true →
  access_denied (localStorage p) = false →
  rejects_writes (localStorage p) = false →
  ∃ st' p' sw' i it,
    setItem (localStorage p) preferredLanguage c = inr st'
    ∧ restore k (set_localStorage st' p) = Some (Completed p')
    ∧ switchers p' !! k = Some sw'
    ∧ selectedCode sw' = Some c
    ∧ option_of_code c sw = Some i
    ∧ items sw !! i = Some it
    ∧ active_flags sw' = <[i := true]> (replicate (length (items sw)) false)
    ∧ currentLabel sw'
      = (λ _, textContent_value (data_label it)) <$> currentLabel sw.
Proof.
  intros Hsw Hdecl Hc Hplain Hden Hrej.
  assert (Hk : k < length (switchers p)) by (by eapply lookup_lt_Some).
  destruct (declared_option_of_code c sw Hdecl) as (i & it & Hopt & Hit & Hlang).
  destruct (setItem (localStorage p) preferredLanguage c) as [e|st'] eqn:Hset.
  { unfold setItem in Hset. by rewrite Hden, Hrej in Hset. }
  pose proof (getItem_after_setItem _ _ _ _ Hset) as Hget.
  eexists st', _, _, i, it. split; [done|]. split.
  { by apply (restore_declared k (set_localStorage st' p) sw c i it). }
  split.
  { destruct (decide (c = "ar-EG")); by apply lookup_set_switcher. }
  unfold selectedCode, active_flags. cbn [items currentLabel set_items].
  rewrite (activate_only_find i (items sw) it Hit), activate_only_flags.
  rewrite set_currentLabel_text. by split_and!.
Qed.

Lemma store_then_restore_witness :
  ∃ st' p' sw' i it,
    setItem (storage_holding ∅) preferredLanguage "fr-FR" = inr st'
    ∧ restore 1 (set_localStorage st' (fresh_page (storage_holding ∅)))
      = Some (Completed p')
    ∧ switchers p' !! 1 = Some sw'
    ∧ selectedCode sw' = Some "fr-FR"
    ∧ option_of_code "fr-FR" (fresh_switcher [english; arabic; french]) = Some i
    ∧ [english; arabic; french] !! i = Some it
    ∧ active_flags sw' = <[i := true]> [false; false; false]
    ∧ currentLabel sw' = Some (textContent_value (data_label it)).
Proof.
  apply (store_then_restore 1 (fresh_switcher [english; arabic; french])
           (fresh_page (storage_holding ∅)) "fr-FR"); try reflexivity.
  - exists french. split; [|reflexivity]. apply list_elem_of_In. simpl. tauto.
  - discriminate.
Defined.

(** C4 as stated fails for an option whose code is the empty string: once
    the empty string is stored, [restore] reads it as no preference, marks
    the first option active and leaves the label, so that the selected code
    is "en-US" and the text still "English", not "Auto". *)
Lemma store_then_restore_empty_code :
  setItem (storage_holding ∅) preferredLanguage ""
  = inr (storage_holding {[ preferredLanguage := "" ]})
  ∧ option_of_code "" (example_switcher false [english; automatic]) = Some 1
  ∧ (selectedCode <$> restored_switcher 0
       (automatic_page (storage_holding {[ preferredLanguage := "" ]})))
    = Some (Some "en-US")
  ∧ (currentLabel <$> restored_switcher 0
       (automatic_page (storage_holding {[ preferredLanguage := "" ]})))
    = Some (Some "English").
Proof. vm_compute. done. Qed.

(** ** Storage errors *)

Lemma restore_access_denied k p sw :
  switchers p !! k = Some sw →
  access_denied (localStorage p) = true →
  restore k p = Some (Threw SecurityError p).
Proof.
  intros Hsw Hden. unfold restore, getItem. by rewrite Hsw, Hden.
Qed.

(** C2 (amended). [getItem] returns the stored string or absence when the
    page may access the storage, and [setItem] stores the value when the
    storage also accepts the write. A storage error is not caught. [getItem]
    and [setItem] throw; the click listener of an option ends at the write,
    after the label and the active flags are updated and before the dropdown
    is closed, the event dispatched and the direction set; [restore] ends at
    the read, and the loop over the switchers ends with it, leaving the
    switchers after the current one as they were. *)
Theorem storage_access_outcomes :
  (∀ st key, access_denied st = false → getItem st key = inr (entries st !! key))
  ∧ (∀ st key value,
       access_denied st = false → rejects_writes st = false →
       ∃ st', setItem st key value = inr st'
              ∧ entries st' = <[key := value]> (entries st))
  ∧ (∀ st key, access_denied st = true → getItem st key = inl SecurityError)
  ∧ (∀ st key value,
       access_denied st || rejects_writes st = true →
       ∃ e, setItem st key value = inl e)
  ∧ (∀ k i p sw it,
       switchers p !! k = Some sw →
       items sw !! i = Some it →
       access_denied (localStorage p) || rejects_writes (localStorage p) = true →
       ∃ e p' sw', item_click k i p = Threw e p'
         ∧ switchers p' !! k = Some sw'
         ∧ active_flags sw' = <[i := true]> (replicate (length (items sw)) false)
         ∧ currentLabel sw'
           = (λ _, textContent_value (data_label it)) <$> currentLabel sw
         ∧ is_open sw' = is_open sw
         ∧ localStorage p' = localStorage p
         ∧ dispatched p' = dispatched p
         ∧ dir p' = dir p)
  ∧ (∀ k ks p sw,
       switchers p !! k = Some sw →
       has_toggle sw && has_menu sw = true →
       access_denied (localStorage p) = true →
       ∃ p', forEach_switcher (k :: ks) p = Some (Threw SecurityError p')
         ∧ (listening <$> switchers p' !! k) = Some true
         ∧ ∀ j, j ≠ k → switchers p' !! j = switchers p !! j).
Proof.
  split_and!.
  - intros st key Hden. unfold getItem. by rewrite Hden.
  - intros st key value Hden Hrej. unfold setItem. rewrite Hden, Hrej.
    by eexists.
  - intros st key Hden. unfold getItem. by rewrite Hden.
  - intros st key value Hbad. unfold setItem.
    destruct (access_denied st); [by eexists|].
    cbn in Hbad. rewrite Hbad. by eexists.
  - intros k i p sw it Hsw Hit Hbad.
    assert (Hk : k < length (switchers p)) by (by eapply lookup_lt_Some).
    destruct (item_click_rejected k i p sw it Hsw Hit Hbad) as [e Hclick].
    eexists e, _, _. split; [exact Hclick|]. split.
    { by apply lookup_set_switcher. }
    unfold active_flags. cbn [items currentLabel is_open set_items].
    rewrite activate_only_flags, set_currentLabel_text, set_currentLabel_open.
    by split_and!.
  - intros k ks p sw Hsw Hwired Hden.
    assert (Hk : k < length (switchers p)) by (by eapply lookup_lt_Some).
    cbn [forEach_switcher]. unfold setup_switcher. rewrite Hsw, Hwired.
    rewrite (restore_access_denied k _ (set_listening sw));
      [|by apply lookup_set_switcher|done].
    eexists. split; [reflexivity|]. split.
    + by rewrite lookup_set_switcher.
    + intros j Hne. by apply lookup_set_switcher_ne.
Qed.

Lemma storage_access_outcomes_witness :
  getItem (storage_holding {[ preferredLanguage := "fr-FR" ]}) preferredLanguage
  = inr (Some "fr-FR")
  ∧ (∃ e p' sw', item_click 0 1 (example_page full_storage) = Threw e p'
       ∧ switchers p' !! 0 = Some sw'
       ∧ active_flags sw' = [false; true]
       ∧ currentLabel sw' = Some "العربية"
       ∧ is_open sw' = true
       ∧ localStorage p' = full_storage
       ∧ dispatched p' = []
       ∧ dir p' = None).
Proof.
  destruct storage_access_outcomes as (Hget & _ & _ & _ & Hclick & _).
  split.
  - apply Hget. reflexivity.
  - apply (Hclick 0 1 (example_page full_storage)
             (example_switcher true [english; arabic]) arabic); reflexivity.
Defined.

(** C2 as stated fails: [getItem] throws when the page may not access the
    storage and [setItem] throws when the value cannot be stored; nothing in
    the source catches either. The click listener of an option then ends at
    the write, and [initLanguageSwitcher] ends in the first switcher, with
    the second one left without listeners. *)
Lemma storage_errors_propagate :
  getItem denied_storage preferredLanguage = inl SecurityError
  ∧ setItem full_storage preferredLanguage "ar-EG" = inl QuotaExceededError
  ∧ thrown (item_click 0 1 (example_page full_storage)) = Some QuotaExceededError
  ∧ (thrown <$> initLanguageSwitcher (fresh_page denied_storage))
    = Some (Some SecurityError)
  ∧ ((λ r, listening <$> switchers (page_of r))
       <$> initLanguageSwitcher (fresh_page denied_storage))
    = Some [true; false].
Proof. vm_compute. done. Qed.

(** * Further properties of the language switcher *)

(** ** What an event can do to a switcher *)

(** Every event changes a switcher only through four updates: the label
    text, the active flags, closing, and the toggled of the toggle. A relation
    that contains these updates and is a preorder relates every switcher to
    itself after any event. *)
Section dispatch_updates.
Variable R : switcher → switcher → Prop.
Hypothesis R_refl : ∀ sw, R sw sw.
Hypothesis R_trans : ∀ sw1 sw2 sw3, R sw1 sw2 → R sw2 sw3 → R sw1 sw3.
Hypothesis R_label : ∀ label sw, R sw (set_currentLabel label sw).
Hypothesis R_activate :
  ∀ i sw, R sw (set_items (activate_only i (items sw)) sw).
Hypothesis R_close : ∀ sw, R sw (close sw).
Hypothesis R_flip : ∀ sw,
  R sw (set_aria_expanded (if negb (is_open sw) then "true" else "false")
                          (set_open (negb (is_open sw)) sw)).

Let related (p p' : page) : Prop :=
  ∀ k sw, switchers p !! k = Some sw →
          ∃ sw', switchers p' !! k = Some sw' ∧ R sw sw'.

Local Lemma related_refl p : related p p.
Proof. intros k sw Hsw. eauto. Qed.

Local Lemma related_trans p1 p2 p3 :
  related p1 p2 → related p2 p3 → related p1 p3.
Proof.
  intros H12 H23 k sw Hsw.
  destruct (H12 k sw Hsw) as (sw2 & Hsw2 & HR12).
  destruct (H23 k sw2 Hsw2) as (sw3 & Hsw3 & HR23). eauto.
Qed.

Local Lemma related_set_switcher p k sw sw' :
  switchers p !! k = Some sw → R sw sw' → related p (set_switcher k sw' p).
Proof.
  intros Hsw HR j swj Hj. destruct (decide (k = j)) as [<-|Hne].
  - exists sw'. split.
    + apply lookup_set_switcher. by eapply lookup_lt_Some.
    + by simplify_eq.
  - exists swj. by rewrite lookup_set_switcher_ne.
Qed.

Local Lemma related_fields p p' :
  switchers p' = switchers p → related p p'.
Proof. intros Heq k sw Hsw. rewrite Heq. eauto. Qed.

Local Lemma related_item_click k i p :
  related p (page_of (item_click k i p)).
Proof.
  unfold item_click.
  destruct (switchers p !! k) as [sw|] eqn:Hsw; [|apply related_refl].
  destruct (items sw !! i) as [it|]; [|apply related_refl].
  cbn zeta.
  set (sw1 := set_currentLabel (data_label it) sw).
  set (sw2 := set_items (activate_only i (items sw1)) sw1).
  assert (R sw sw2) as HR2 by (eapply R_trans; [apply R_label|apply R_activate]).
  assert (related p (set_switcher k sw2 p)) as Hp2
    by (by eapply related_set_switcher).
  destruct (setItem _ _ _) as [e|st]; [exact Hp2|].
  eapply related_trans; [exact Hp2|].
  assert (related (set_switcher k sw2 p)
            (set_switcher k (close sw2)
               (set_localStorage st (set_switcher k sw2 p)))) as Hp4.
  { intros j swj Hj. destruct (decide (k = j)) as [<-|Hne].
    - exists (close sw2).
      rewrite lookup_set_switcher in Hj by (by eapply lookup_lt_Some).
      simplify_eq. split; [|apply R_close].
      apply lookup_set_switcher. cbn. rewrite length_insert.
      by eapply lookup_lt_Some.
    - exists swj. split; [|apply R_refl].
      rewrite lookup_set_switcher_ne by done. exact Hj. }
  case_decide; exact Hp4.
Qed.

Local Lemma related_toggle_click k p :
  related p (page_of (toggle_click k p)).
Proof.
  unfold toggle_click.
  destruct (switchers p !! k) as [sw|] eqn:Hsw; [|apply related_refl].
  cbn zeta.
  pose proof (related_set_switcher p k sw _ Hsw (R_flip sw)) as Hp'.
  destruct (negb (is_open sw)); [|exact Hp'].
  destruct (items sw); [exact Hp'|].
  eapply related_trans; [exact Hp'|by apply related_fields].
Qed.

Local Lemma related_menu_keydown k key p :
  related p (page_of (menu_keydown k key p)).
Proof.
  unfold menu_keydown.
  destruct (switchers p !! k) as [sw|] eqn:Hsw; [|apply related_refl].
  cbn zeta.
  pose proof (related_set_switcher p k sw _ Hsw (R_close sw)) as Hclose.
  unfold focus_item.
  repeat case_match;
    first [ apply related_refl
          | exact Hclose
          | by apply related_fields
          | eapply related_trans; [exact Hclose|by apply related_fields] ].
Qed.

Local Lemma related_bubble target p :
  related p (bubble_to_document target p).
Proof.
  intros k sw Hsw. rewrite lookup_bubble_to_document, Hsw.
  eexists. split; [reflexivity|].
  unfold document_click. case_match; [apply R_close|apply R_refl].
Qed.

Lemma dispatch_related ev p k sw :
  switchers p !! k = Some sw →
  ∃ sw', switchers (dispatch ev p) !! k = Some sw' ∧ R sw sw'.
Proof.
  revert k sw. change (related p (dispatch ev p)).
  destruct ev as [[k i|k| |]|key]; cbn [dispatch].
  - eapply related_trans; [|apply related_bubble].
    destruct (is_listening k p); [apply related_item_click|apply related_refl].
  - destruct (is_listening k p);
      [apply related_toggle_click|apply related_bubble].
  - apply related_bubble.
  - apply related_bubble.
  - destruct (activeElement p) as [k i|k| |]; try apply related_refl.
    destruct (is_listening k p);
      [apply related_menu_keydown|apply related_refl].
Qed.
End dispatch_updates.

Lemma set_currentLabel_aria label sw :
  aria_expanded (set_currentLabel label sw) = aria_expanded sw.
Proof. unfold set_currentLabel. by destruct (currentLabel sw). Qed.

(** X1. The toggle's [aria-expanded] attribute keeps saying whether the
    switcher is open, through every click and key of the user, whatever the
    storage does. *)
Theorem aria_expanded_follows_open ev p k sw :
  switchers p !! k = Some sw →
  aria_mirrors sw →
  ∃ sw', switchers (dispatch ev p) !! k = Some sw' ∧ aria_mirrors sw'.
Proof.
  intros Hsw Haria.
  destruct (λ H1 H2 H3 H4 H5 H6,
              dispatch_related (λ sw sw', aria_mirrors sw → aria_mirrors sw')
                H1 H2 H3 H4 H5 H6 ev p k sw Hsw) as (sw' & Hsw' & HR);
    unfold aria_mirrors in *.
  - done.
  - auto.
  - intros label sw1.
    by rewrite set_currentLabel_aria, set_currentLabel_open.
  - done.
  - done.
  - intros sw1 _. cbn. by destruct (is_open sw1).
  - eauto.
Qed.

Lemma aria_expanded_follows_open_witness :
  ∃ sw', switchers (dispatch (Click (Toggle 1)) (example_page full_storage)) !! 1
         = Some sw' ∧ aria_mirrors sw'.
Proof.
  apply (aria_expanded_follows_open (Click (Toggle 1)) (example_page full_storage)
           1 (example_switcher false [english; arabic; french]));
    reflexivity.
Defined.

(** X2. No event adds, removes, reorders or rewrites an option (its code and
    label stay), creates or removes the label element, or attaches or
    detaches listeners: only the active flags, the label text and the open
    state of a switcher can change. *)
Theorem options_are_immutable ev p k sw :
  switchers p !! k = Some sw →
  ∃ sw', switchers (dispatch ev p) !! k = Some sw'
    ∧ data_lang <$> items sw' = data_lang <$> items sw
    ∧ data_label <$> items sw' = data_label <$> items sw
    ∧ (is_Some (currentLabel sw') ↔ is_Some (currentLabel sw))
    ∧ listening sw' = listening sw
    ∧ has_toggle sw' = has_toggle sw
    ∧ has_menu sw' = has_menu sw.
Proof.
  intros Hsw.
  refine (dispatch_related
           (λ sw sw', data_lang <$> items sw' = data_lang <$> items sw
                      ∧ data_label <$> items sw' = data_label <$> items sw
                      ∧ (is_Some (currentLabel sw') ↔ is_Some (currentLabel sw))
                      ∧ listening sw' = listening sw
                      ∧ has_toggle sw' = has_toggle sw
                      ∧ has_menu sw' = has_menu sw) _ _ _ _ _ _ ev p k sw Hsw).
  - done.
  - intros sw1 sw2 sw3 (?&?&?&?&?&?) (?&?&?&?&?&?). split_and!; try congruence.
    etrans; eauto.
  - intros label sw1. unfold set_currentLabel.
    destruct (currentLabel sw1) eqn:Hcur; cbn; rewrite ?Hcur; split_and!;
      try done; try (split; intros _; eauto).
  - intros i sw1. cbn.
    by rewrite activate_only_data_lang, activate_only_data_label.
  - done.
  - done.
Qed.

Lemma options_are_immutable_witness :
  ∃ sw', switchers (dispatch (Click (Item 0 1)) (example_page full_storage)) !! 0
         = Some sw'
    ∧ data_lang <$> items sw' = [Some "en-US"; Some "ar-EG"]
    ∧ data_label <$> items sw' = [Some "English"; Some "العربية"]
    ∧ (is_Some (currentLabel sw') ↔ is_Some (Some "English"))
    ∧ listening sw' = true
    ∧ has_toggle sw' = true
    ∧ has_menu sw' = true.
Proof.
  apply (options_are_immutable (Click (Item 0 1)) (example_page full_storage) 0
           (example_switcher true [english; arabic])).
  reflexivity.
Defined.

(** ** What an event can write outside the switchers *)

Lemma item_click_footprint k i p :
  (localStorage (page_of (item_click k i p)) = localStorage p
   ∧ dir (page_of (item_click k i p)) = dir p
   ∧ dispatched (page_of (item_click k i p)) = dispatched p)
  ∨ (∃ lang label,
       localStorage (page_of (item_click k i p))
       = mkStorage (<[preferredLanguage := ToString lang]> (entries (localStorage p)))
                   (access_denied (localStorage p)) (rejects_writes (localStorage p))
       ∧ (dir (page_of (item_click k i p)) = Some "rtl"
          ∨ dir (page_of (item_click k i p)) = Some "ltr")
       ∧ dispatched (page_of (item_click k i p))
         = dispatched p ++ [mkEvent "languageChange" lang label]).
Proof.
  unfold item_click.
  destruct (switchers p !! k) as [sw|]; [|by left].
  destruct (items sw !! i) as [it|]; [|by left].
  cbn zeta. unfold setItem. cbn [localStorage set_switcher set_switchers].
  destruct (access_denied (localStorage p)); [by left|].
  destruct (rejects_writes (localStorage p)); [by left|].
  right. exists (data_lang it), (data_label it).
  case_decide; cbn; split_and!; auto.
Qed.

Lemma toggle_click_footprint k p :
  localStorage (page_of (toggle_click k p)) = localStorage p
  ∧ dir (page_of (toggle_click k p)) = dir p
  ∧ dispatched (page_of (toggle_click k p)) = dispatched p.
Proof. unfold toggle_click. by repeat case_match. Qed.

Lemma menu_keydown_footprint k key p :
  localStorage (page_of (menu_keydown k key p)) = localStorage p
  ∧ dir (page_of (menu_keydown k key p)) = dir p
  ∧ dispatched (page_of (menu_keydown k key p)) = dispatched p.
Proof. unfold menu_keydown, focus_item. by repeat case_match. Qed.

Lemma other_event_footprint ev p :
  (∀ k i, ev ≠ Click (Item k i)) →
  localStorage (dispatch ev p) = localStorage p
  ∧ dir (dispatch ev p) = dir p
  ∧ dispatched (dispatch ev p) = dispatched p.
Proof.
  intros Hev. destruct ev as [[k i|k| |]|key]; cbn [dispatch].
  - by destruct (Hev k i).
  - destruct (is_listening k p); [apply toggle_click_footprint|done].
  - done.
  - done.
  - destruct (activeElement p) as [k i|k| |]; try done.
    destruct (is_listening k p); [apply menu_keydown_footprint|done].
Qed.

(** X4. Whatever the event, the storage changes at most under the key
    "preferredLanguage" (every other entry and the state of the storage
    stay), at most one event is dispatched and it is a "languageChange", and
    the [dir] attribute is either left or set to "rtl" or "ltr". *)
Theorem event_footprint ev p :
  (∀ key, key ≠ preferredLanguage →
          entries (localStorage (dispatch ev p)) !! key
          = entries (localStorage p) !! key)
  ∧ access_denied (localStorage (dispatch ev p)) = access_denied (localStorage p)
  ∧ rejects_writes (localStorage (dispatch ev p)) = rejects_writes (localStorage p)
  ∧ (dispatched (dispatch ev p) = dispatched p
     ∨ ∃ lang label, dispatched (dispatch ev p)
                     = dispatched p ++ [mkEvent "languageChange" lang label])
  ∧ (dir (dispatch ev p) = dir p
     ∨ dir (dispatch ev p) = Some "rtl" ∨ dir (dispatch ev p) = Some "ltr").
Proof.
  assert (∀ ev', (∀ k i, ev' ≠ Click (Item k i)) →
                 (∀ key, key ≠ preferredLanguage →
                    entries (localStorage (dispatch ev' p)) !! key
                    = entries (localStorage p) !! key)
                 ∧ access_denied (localStorage (dispatch ev' p))
                   = access_denied (localStorage p)
                 ∧ rejects_writes (localStorage (dispatch ev' p))
                   = rejects_writes (localStorage p)
                 ∧ (dispatched (dispatch ev' p) = dispatched p
                    ∨ ∃ lang label, dispatched (dispatch ev' p)
                        = dispatched p ++ [mkEvent "languageChange" lang label])
                 ∧ (dir (dispatch ev' p) = dir p
                    ∨ dir (dispatch ev' p) = Some "rtl"
                    ∨ dir (dispatch ev' p) = Some "ltr")) as Hother.
  { intros ev' Hev'.
    destruct (other_event_footprint ev' p Hev') as (-> & -> & ->).
    split_and!; auto. }
  destruct ev as [[k i|k| |]|key]; try (by apply Hother).
  cbn [dispatch]. destruct (is_listening k p); [|by split_and!; auto].
  cbn [bubble_to_document set_switchers localStorage dir dispatched].
  destruct (item_click_footprint k i p)
    as [(-> & -> & ->)|(lang & label & -> & Hdir & ->)];
    [by split_and!; auto|].
  cbn. split_and!; eauto.
  intros key Hkey. by rewrite lookup_insert_ne.
Qed.

(** ** The toggle *)

Lemma dispatch_toggle k sw p :
  switchers p !! k = Some sw →
  listening sw = true →
  dispatch (Click (Toggle k)) p
  = if negb (is_open sw) then
      match items sw with
      | [] => set_switcher k (toggled sw) p
      | _ :: _ => focus (Item k 0) (set_switcher k (toggled sw) p)
      end
    else set_switcher k (toggled sw) p.
Proof.
  intros Hsw Hl. cbn [dispatch]. unfold is_listening, toggle_click.
  rewrite Hsw, Hl. cbn zeta. fold (toggled sw).
  destruct (negb (is_open sw)); [|done]. by destruct (items sw).
Qed.

Lemma lookup_dispatch_toggle k sw p :
  switchers p !! k = Some sw →
  listening sw = true →
  switchers (dispatch (Click (Toggle k)) p) = <[k := toggled sw]> (switchers p).
Proof.
  intros Hsw Hl. rewrite (dispatch_toggle k sw p Hsw Hl).
  destruct (negb (is_open sw)); [|done]. by destruct (items sw).
Qed.

(** X5. Two clicks on the toggle of a switcher with listeners leave it open
    or closed as it was, with [aria-expanded] saying so, its options and
    label untouched, and every other switcher unchanged. *)
Theorem toggle_twice_restores k sw p :
  switchers p !! k = Some sw →
  listening sw = true →
  ∃ sw2,
    switchers (dispatch (Click (Toggle k)) (dispatch (Click (Toggle k)) p)) !! k
    = Some sw2
    ∧ is_open sw2 = is_open sw
    ∧ aria_mirrors sw2
    ∧ items sw2 = items sw
    ∧ currentLabel sw2 = currentLabel sw
    ∧ ∀ j, j ≠ k →
        switchers (dispatch (Click (Toggle k)) (dispatch (Click (Toggle k)) p)) !! j
        = switchers p !! j.
Proof.
  intros Hsw Hl.
  assert (Hk : k < length (switchers p)) by (by eapply lookup_lt_Some).
  assert (switchers (dispatch (Click (Toggle k)) p) !! k = Some (toggled sw)) as Hsw1.
  { rewrite (lookup_dispatch_toggle k sw p Hsw Hl).
    by apply list_lookup_insert_eq. }
  rewrite (lookup_dispatch_toggle k (toggled sw) _ Hsw1 Hl).
  rewrite (lookup_dispatch_toggle k sw p Hsw Hl).
  exists (toggled (toggled sw)). split_and!.
  - apply list_lookup_insert_eq. by rewrite length_insert.
  - cbn. apply negb_involutive.
  - unfold aria_mirrors. cbn. by destruct (is_open sw).
  - done.
  - done.
  - intros j Hne. by rewrite !list_lookup_insert_ne.
Qed.

Lemma toggle_twice_restores_witness :
  ∃ sw2,
    switchers (dispatch (Click (Toggle 1))
                 (dispatch (Click (Toggle 1)) (example_page full_storage))) !! 1
    = Some sw2
    ∧ is_open sw2 = false
    ∧ aria_mirrors sw2
    ∧ items sw2 = [english; arabic; french]
    ∧ currentLabel sw2 = Some "English"
    ∧ ∀ j, j ≠ 1 →
        switchers (dispatch (Click (Toggle 1))
                     (dispatch (Click (Toggle 1)) (example_page full_storage))) !! j
        = switchers (example_page full_storage) !! j.
Proof.
  apply (toggle_twice_restores 1 (example_switcher false [english; arabic; french])
           (example_page full_storage)); reflexivity.
Defined.

(** X6. A click on the toggle of a closed switcher with listeners opens it,
    sets [aria-expanded] to "true" and moves the focus to its first option
    (the focus stays where it was when the switcher has no option). It
    touches no other switcher: one that was open stays open. *)
Theorem toggle_opens_and_focuses k sw p :
  switchers p !! k = Some sw →
  listening sw = true →
  is_open sw = false →
  ∃ sw',
    switchers (dispatch (Click (Toggle k)) p) !! k = Some sw'
    ∧ is_open sw' = true
    ∧ aria_expanded sw' = Some "true"
    ∧ activeElement (dispatch (Click (Toggle k)) p)
      = match items sw with [] => activeElement p | _ :: _ => Item k 0 end
    ∧ ∀ j, j ≠ k →
        switchers (dispatch (Click (Toggle k)) p) !! j = switchers p !! j.
Proof.
  intros Hsw Hl Hclosed.
  assert (Hk : k < length (switchers p)) by (by eapply lookup_lt_Some).
  rewrite (lookup_dispatch_toggle k sw p Hsw Hl).
  rewrite (dispatch_toggle k sw p Hsw Hl).
  exists (toggled sw). unfold toggled. rewrite Hclosed. cbn. split_and!.
  - by apply list_lookup_insert_eq.
  - done.
  - done.
  - by destruct (items sw).
  - intros j Hne. by apply list_lookup_insert_ne.
Qed.

Lemma toggle_opens_and_focuses_witness :
  ∃ sw',
    switchers (dispatch (Click (Toggle 1)) (example_page full_storage)) !! 1
    = Some sw'
    ∧ is_open sw' = true
    ∧ aria_expanded sw' = Some "true"
    ∧ activeElement (dispatch (Click (Toggle 1)) (example_page full_storage))
      = Item 1 0
    ∧ ∀ j, j ≠ 1 →
        switchers (dispatch (Click (Toggle 1)) (example_page full_storage)) !! j
        = switchers (example_page full_storage) !! j.
Proof.
  apply (toggle_opens_and_focuses 1
           (example_switcher false [english; arabic; french])
           (example_page full_storage)); reflexivity.
Defined.

(** ** More of the keyboard *)

Lemma keydown_ArrowUp k sw p i :
  switchers p !! k = Some sw →
  listening sw = true →
  activeElement p = Item k i →
  i < length (items sw) →
  dispatch (KeyDown "ArrowUp") p
  = focus (Item k ((i + length (items sw) - 1) mod length (items sw))) p.
Proof.
  intros Hsw Hl Hfocus Hi. unfold dispatch, is_listening.
  rewrite Hfocus, Hsw, Hl. unfold menu_keydown. rewrite Hsw.
  cbn [String.eqb Ascii.eqb Bool.eqb]. unfold indexOf_focused. rewrite Hfocus.
  rewrite !decide_True by done. unfold focus_item. cbn zeta.
  replace (Z.of_nat i - 1 + Z.of_nat (length (items sw)))%Z
    with (Z.of_nat (i + length (items sw) - 1)) by lia.
  rewrite js_index_rem by lia. done.
Qed.

(** X7. With the focus on option [i] of a switcher with listeners, the Up
    arrow moves the focus to option [i - 1], and from the first option to the
    last; it undoes a Down arrow, and a Down arrow undoes it. *)
Theorem arrow_up_steps_back k sw p i :
  switchers p !! k = Some sw →
  listening sw = true →
  i < length (items sw) →
  activeElement (dispatch (KeyDown "ArrowUp") (focus (Item k i) p))
  = Item k (if decide (i = 0) then length (items sw) - 1 else i - 1)
  ∧ dispatch (KeyDown "ArrowUp") (dispatch (KeyDown "ArrowDown") (focus (Item k i) p))
    = focus (Item k i) p
  ∧ dispatch (KeyDown "ArrowDown") (dispatch (KeyDown "ArrowUp") (focus (Item k i) p))
    = focus (Item k i) p.
Proof.
  intros Hsw Hl Hi. set (N := length (items sw)) in *.
  assert (Hup : ∀ i', i' < N →
            (i' + N - 1) mod N = if decide (i' = 0) then N - 1 else i' - 1).
  { intros i' Hi'. case_decide as H0.
    - subst i'. apply Nat.mod_small. lia.
    - replace (i' + N - 1) with (i' - 1 + 1 * N) by lia.
      rewrite Nat.Div0.mod_add. apply Nat.mod_small. lia. }
  assert (Hdown : ∀ i', i' < N →
            (i' + 1) mod N = if decide (i' + 1 = N) then 0 else i' + 1).
  { intros i' Hi'. case_decide as Hlast.
    - rewrite Hlast. apply Nat.Div0.mod_same.
    - apply Nat.mod_small. lia. }
  split_and!.
  - rewrite (keydown_ArrowUp k sw (focus (Item k i) p) i) by done.
    cbn. f_equal. by apply Hup.
  - rewrite (keydown_ArrowDown k sw (focus (Item k i) p) i) by done.
    rewrite (keydown_ArrowUp k sw _ ((i + 1) mod N)); try done.
    + unfold focus. cbn. do 2 f_equal. fold N.
      rewrite Hdown, Hup by (try case_decide; lia).
      repeat case_decide; lia.
    + apply Nat.mod_upper_bound. lia.
  - rewrite (keydown_ArrowUp k sw (focus (Item k i) p) i) by done.
    rewrite (keydown_ArrowDown k sw _ ((i + N - 1) mod N)); try done.
    + unfold focus. cbn. do 2 f_equal. fold N. rewrite Hup by done.
      rewrite Hdown by (case_decide; lia).
      repeat case_decide; lia.
    + apply Nat.mod_upper_bound. lia.
Qed.

Lemma arrow_up_steps_back_witness :
  activeElement (dispatch (KeyDown "ArrowUp")
                   (focus (Item 1 0) (example_page full_storage)))
  = Item 1 2
  ∧ dispatch (KeyDown "ArrowUp")
      (dispatch (KeyDown "ArrowDown") (focus (Item 1 0) (example_page full_storage)))
    = focus (Item 1 0) (example_page full_storage)
  ∧ dispatch (KeyDown "ArrowDown")
      (dispatch (KeyDown "ArrowUp") (focus (Item 1 0) (example_page full_storage)))
    = focus (Item 1 0) (example_page full_storage).
Proof.
  apply (arrow_up_steps_back 1 (example_switcher false [english; arabic; french])
           (example_page full_storage) 0); [reflexivity..|simpl; lia].
Defined.

Lemma indexOf_focused_elsewhere k sw p :
  (∀ i, activeElement p ≠ Item k i) → indexOf_focused k sw p = (-1)%Z.
Proof.
  intros Hfocus. unfold indexOf_focused.
  destruct (activeElement p) as [k' i| | |] eqn:Hact; try done.
  case_decide as Hk; [|done]. subst k'. by destruct (Hfocus i).
Qed.

(** X8. When the menu gets an arrow key while the focused element is none of
    its options, the Down arrow focuses the first option, and the Up arrow
    focuses the option before the last one (the only option when there is
    just one), not the last. *)
Theorem arrows_without_focused_option k sw p :
  switchers p !! k = Some sw →
  (∀ i, activeElement p ≠ Item k i) →
  1 ≤ length (items sw) →
  menu_keydown k "ArrowDown" p = Completed (focus (Item k 0) p)
  ∧ menu_keydown k "ArrowUp" p
    = Completed (focus (Item k (length (items sw) - 2)) p).
Proof.
  intros Hsw Hfocus Hlen. unfold menu_keydown. rewrite Hsw.
  cbn [String.eqb Ascii.eqb Bool.eqb].
  rewrite (indexOf_focused_elsewhere k sw p Hfocus). cbn zeta.
  unfold focus_item. split.
  - replace (-1 + 1)%Z with (Z.of_nat 0) by lia.
    rewrite js_index_rem by lia. by rewrite Nat.Div0.mod_0_l.
  - destruct (decide (length (items sw) = 1)) as [H1|H1].
    + unfold js_rem, js_index. rewrite H1. by cbn.
    + replace (-1 - 1 + Z.of_nat (length (items sw)))%Z
        with (Z.of_nat (length (items sw) - 2)) by lia.
      rewrite js_index_rem by lia. rewrite Nat.mod_small by lia. done.
Qed.

Lemma arrows_without_focused_option_witness :
  menu_keydown 1 "ArrowDown" (focus (Toggle 1) (example_page full_storage))
  = Completed (focus (Item 1 0) (example_page full_storage))
  ∧ menu_keydown 1 "ArrowUp" (focus (Toggle 1) (example_page full_storage))
    = Completed (focus (Item 1 1) (example_page full_storage)).
Proof.
  apply (arrows_without_focused_option 1
           (example_switcher false [english; arabic; french])
           (focus (Toggle 1) (example_page full_storage))).
  - reflexivity.
  - intros i. discriminate.
  - simpl. lia.
Defined.

(** X9. In a switcher without options an arrow key ends the menu's listener
    with a TypeError ([itemsArray[NaN]] is [undefined]) and changes nothing. *)
Theorem arrows_without_options k sw p :
  switchers p !! k = Some sw →
  items sw = [] →
  menu_keydown k "ArrowDown" p = Threw TypeError p
  ∧ menu_keydown k "ArrowUp" p = Threw TypeError p.
Proof.
  intros Hsw Hnil. unfold menu_keydown. rewrite Hsw, Hnil.
  cbn [String.eqb Ascii.eqb Bool.eqb]. unfold focus_item. rewrite Hnil.
  by cbn.
Qed.

Lemma arrows_without_options_witness :
  menu_keydown 0 "ArrowDown"
    (mkPage [example_switcher true []] full_storage None Elsewhere [])
  = Threw TypeError (mkPage [example_switcher true []] full_storage None Elsewhere [])
  ∧ menu_keydown 0 "ArrowUp"
      (mkPage [example_switcher true []] full_storage None Elsewhere [])
    = Threw TypeError
        (mkPage [example_switcher true []] full_storage None Elsewhere []).
Proof.
  apply (arrows_without_options 0 (example_switcher true [])); reflexivity.
Defined.

(** X10. With the focus on an option of a switcher with listeners, Escape
    closes the switcher and moves the focus to its toggle, Tab closes it and
    leaves the focus where it is; both keep its options, active flags and
    label and every other switcher as they were, and any key other than the
    two and the arrows changes nothing at all. *)
Theorem escape_and_tab k sw p i :
  switchers p !! k = Some sw →
  listening sw = true →
  activeElement p = Item k i →
  dispatch (KeyDown "Escape") p = focus (Toggle k) (set_switcher k (close sw) p)
  ∧ dispatch (KeyDown "Tab") p = set_switcher k (close sw) p
  ∧ items (close sw) = items sw
  ∧ currentLabel (close sw) = currentLabel sw
  ∧ (∀ j, j ≠ k → switchers (set_switcher k (close sw) p) !! j = switchers p !! j)
  ∧ (∀ key, key ≠ "ArrowDown" → key ≠ "ArrowUp" → key ≠ "Escape" → key ≠ "Tab" →
            dispatch (KeyDown key) p = p).
Proof.
  intros Hsw Hl Hfocus. unfold dispatch, is_listening.
  rewrite Hfocus, Hsw, Hl. unfold menu_keydown. rewrite Hsw.
  split_and!; try done.
  - intros j Hne. by apply lookup_set_switcher_ne.
  - intros key H1 H2 H3 H4.
    apply String.eqb_neq in H1, H2, H3, H4. by rewrite H1, H2, H3, H4.
Qed.

Lemma escape_and_tab_witness :
  dispatch (KeyDown "Escape") (example_page full_storage)
  = focus (Toggle 0)
      (set_switcher 0 (close (example_switcher true [english; arabic]))
         (example_page full_storage))
  ∧ dispatch (KeyDown "Tab") (example_page full_storage)
    = set_switcher 0 (close (example_switcher true [english; arabic]))
        (example_page full_storage)
  ∧ items (close (example_switcher true [english; arabic])) = [english; arabic]
  ∧ currentLabel (close (example_switcher true [english; arabic]))
    = Some "English"
  ∧ (∀ j, j ≠ 0 →
       switchers (set_switcher 0 (close (example_switcher true [english; arabic]))
                    (example_page full_storage)) !! j
       = switchers (example_page full_storage) !! j)
  ∧ (∀ key, key ≠ "ArrowDown" → key ≠ "ArrowUp" → key ≠ "Escape" → key ≠ "Tab" →
            dispatch (KeyDown key) (example_page full_storage)
            = example_page full_storage).
Proof.
  apply (escape_and_tab 0 (example_switcher true [english; arabic])
           (example_page full_storage) 0); reflexivity.
Defined.

(** ** Several switchers on one page *)

(** X11. A selection in one switcher is not carried to the others: the click
    on an option of switcher [k] leaves the active flags, the options and the
    label of every other switcher as they were, whatever the storage does;
    it only closes those that have listeners. *)
Theorem selection_stays_in_its_switcher k i j swj p :
  j ≠ k →
  switchers p !! j = Some swj →
  ∃ swj', switchers (dispatch (Click (Item k i)) p) !! j = Some swj'
    ∧ items swj' = items swj
    ∧ currentLabel swj' = currentLabel swj
    ∧ (listening swj = true → is_open swj' = false)
    ∧ (listening swj = false → swj' = swj).
Proof.
  intros Hne Hj. cbn [dispatch]. rewrite lookup_bubble_to_document.
  assert (switchers (if is_listening k p then page_of (item_click k i p) else p) !! j
          = Some swj) as ->.
  { destruct (is_listening k p); [|done].
    by rewrite item_click_other_switcher. }
  cbn [fmap option_fmap option_map]. eexists. split; [reflexivity|].
  unfold document_click. cbn [contains].
  rewrite bool_decide_eq_false_2 by done.
  destruct (listening swj); cbn; split_and!; done.
Qed.

Lemma selection_stays_in_its_switcher_witness :
  ∃ swj', switchers (dispatch (Click (Item 0 1)) (example_page (storage_holding ∅)))
            !! 1 = Some swj'
    ∧ items swj' = [english; arabic; french]
    ∧ currentLabel swj' = Some "English"
    ∧ (true = true → is_open swj' = false)
    ∧ (true = false → swj' = example_switcher false [english; arabic; french]).
Proof.
  apply (selection_stays_in_its_switcher 0 1 1
           (example_switcher false [english; arabic; french])
           (example_page (storage_holding ∅))); [lia|reflexivity].
Defined.

(** ** The setup loop *)

Lemma restore_other_switcher j k p r :
  restore j p = Some r → k ≠ j →
  switchers (page_of r) !! k = switchers p !! k.
Proof.
  unfold restore. intros Hr Hne.
  repeat case_match; simplify_eq; cbn; try done;
    by rewrite list_lookup_insert_ne.
Qed.

Lemma setup_switcher_other j k p r :
  setup_switcher j p = Some r → k ≠ j →
  switchers (page_of r) !! k = switchers p !! k.
Proof.
  unfold setup_switcher. intros Hr Hne.
  destruct (switchers p !! j) as [sw|]; [|by simplify_eq].
  destruct (has_toggle sw && has_menu sw); [|by simplify_eq].
  rewrite (restore_other_switcher j k _ r Hr Hne).
  by apply lookup_set_switcher_ne.
Qed.

Lemma setup_switcher_skipped j p sw :
  switchers p !! j = Some sw →
  has_toggle sw && has_menu sw = false →
  setup_switcher j p = Some (Completed p).
Proof. intros Hsw Hwired. unfold setup_switcher. by rewrite Hsw, Hwired. Qed.

(** The loop over [seq a n], when every setup completes without touching
    the storage, the events or the other switchers. *)
Section forEach_completes.
Variable st : Storage.
Variable Q : switcher → switcher → Prop.
Variable D : option string → option string → Prop.
Hypothesis D_refl : ∀ d, D d d.
Hypothesis D_trans : ∀ d1 d2 d3, D d1 d2 → D d2 d3 → D d1 d3.

Let step (k : nat) (p p' : page) : Prop :=
  localStorage p' = st
  ∧ dispatched p' = dispatched p
  ∧ activeElement p' = activeElement p
  ∧ D (dir p) (dir p')
  ∧ (∀ j, j ≠ k → switchers p' !! j = switchers p !! j)
  ∧ (∀ sw, switchers p !! k = Some sw →
           ∃ sw', switchers p' !! k = Some sw' ∧ Q sw sw').

Hypothesis setup_completes : ∀ k p,
  localStorage p = st →
  ∃ p', setup_switcher k p = Some (Completed p') ∧ step k p p'.

Lemma forEach_switcher_seq n : ∀ a p,
  localStorage p = st →
  ∃ p', forEach_switcher (seq a n) p = Some (Completed p')
    ∧ localStorage p' = st
    ∧ dispatched p' = dispatched p
    ∧ activeElement p' = activeElement p
    ∧ D (dir p) (dir p')
    ∧ (∀ j, j < a ∨ a + n ≤ j → switchers p' !! j = switchers p !! j)
    ∧ (∀ j sw, a ≤ j < a + n → switchers p !! j = Some sw →
               ∃ sw', switchers p' !! j = Some sw' ∧ Q sw sw').
Proof.
  induction n as [|n IH]; intros a p Hst.
  - exists p. cbn. split_and!; try done. intros j sw Hj. lia.
  - cbn [seq forEach_switcher].
    destruct (setup_completes a p Hst)
      as (p1 & -> & Hst1 & Hev1 & Hact1 & Hdir1 & Hother1 & Hthis1).
    destruct (IH (S a) p1 Hst1)
      as (p' & -> & Hst' & Hev' & Hact' & Hdir' & Hother' & Hthis').
    exists p'. split_and!; try done; try congruence.
    + by eapply D_trans.
    + intros j Hj. rewrite Hother' by lia. apply Hother1. lia.
    + intros j sw Hj Hsw. destruct (decide (j = a)) as [->|Hne].
      * rewrite Hother' by lia. by apply Hthis1.
      * apply Hthis'; [lia|]. rewrite Hother1 by done. exact Hsw.
Qed.
End forEach_completes.

Lemma set_switcher_id k sw p :
  switchers p !! k = Some sw → set_switcher k sw p = p.
Proof.
  intros Hsw. unfold set_switcher, set_switchers.
  rewrite list_insert_id by done. by destruct p.
Qed.

(** X13. On a page whose storage can be read and holds no preference,
    [initLanguageSwitcher] completes; every switcher that has a toggle and a
    menu gets its listeners and its first option marked active, with the
    other flags, the label and the open state untouched; the switchers
    without toggle or menu, the storage, the [dir] attribute, the focus and
    the dispatched events stay as they were. *)
Theorem init_without_preference p :
  access_denied (localStorage p) = false →
  entries (localStorage p) !! preferredLanguage = None →
  ∃ p', initLanguageSwitcher p = Some (Completed p')
    ∧ localStorage p' = localStorage p
    ∧ dir p' = dir p
    ∧ activeElement p' = activeElement p
    ∧ dispatched p' = dispatched p
    ∧ ∀ k sw, switchers p !! k = Some sw →
        ∃ sw', switchers p' !! k = Some sw'
          ∧ if has_toggle sw && has_menu sw
            then listening sw' = true
                 ∧ active_flags sw' = match active_flags sw with
                                      | [] => []
                                      | _ :: flags => true :: flags
                                      end
                 ∧ currentLabel sw' = currentLabel sw
                 ∧ is_open sw' = is_open sw
            else sw' = sw.
Proof.
  intros Hden Hnone.
  set (Q := λ sw sw' : switcher,
         if has_toggle sw && has_menu sw
         then listening sw' = true
              ∧ active_flags sw' = match active_flags sw with
                                   | [] => []
                                   | _ :: flags => true :: flags
                                   end
              ∧ currentLabel sw' = currentLabel sw
              ∧ is_open sw' = is_open sw
         else sw' = sw).
  destruct (forEach_switcher_seq (localStorage p) Q eq) with
    (n := length (switchers p)) (a := 0) (p := p)
    as (p' & Hinit & Hst & Hev & Hact & Hdir & _ & Hthis); try done.
  { congruence. }
  { intros k q Hq. unfold setup_switcher.
    destruct (switchers q !! k) as [sw|] eqn:Hsw;
      [|exists q; split_and!; done].
    assert (Hk : k < length (switchers q)) by (by eapply lookup_lt_Some).
    destruct (has_toggle sw && has_menu sw) eqn:Hwired.
    - unfold restore. rewrite lookup_set_switcher by done.
      unfold getItem. cbn [localStorage set_switcher set_switchers].
      rewrite Hq, Hden, Hnone. cbn [truthy items set_listening].
      destruct (items sw) as [|it its] eqn:Hits.
      + eexists. split; [reflexivity|]. split_and!; try done.
        * intros j Hne. by apply lookup_set_switcher_ne.
        * intros sw0 Hsw0. simplify_eq. eexists.
          split; [by apply lookup_set_switcher|].
          unfold Q, active_flags. rewrite Hwired. cbn. by rewrite Hits.
      + eexists. split; [reflexivity|]. split_and!; try done.
        * intros j Hne. cbn. by rewrite !list_lookup_insert_ne.
        * intros sw0 Hsw0. simplify_eq. eexists. split.
          { cbn. apply list_lookup_insert_eq. by rewrite length_insert. }
          unfold Q, active_flags. rewrite Hwired. cbn. by rewrite Hits.
    - exists q. split_and!; try done.
      intros sw0 Hsw0. simplify_eq. exists sw0. split; [done|].
      unfold Q. by rewrite Hwired. }
  exists p'. split_and!; try done.
  intros k sw Hsw. apply Hthis; [|done].
  apply lookup_lt_Some in Hsw. lia.
Qed.

Lemma init_without_preference_witness :
  ∃ p', initLanguageSwitcher (fresh_page (storage_holding ∅)) = Some (Completed p')
    ∧ localStorage p' = storage_holding ∅
    ∧ dir p' = None
    ∧ activeElement p' = Elsewhere
    ∧ dispatched p' = []
    ∧ ∀ k sw, switchers (fresh_page (storage_holding ∅)) !! k = Some sw →
        ∃ sw', switchers p' !! k = Some sw'
          ∧ if has_toggle sw && has_menu sw
            then listening sw' = true
                 ∧ active_flags sw' = match active_flags sw with
                                      | [] => []
                                      | _ :: flags => true :: flags
                                      end
                 ∧ currentLabel sw' = currentLabel sw
                 ∧ is_open sw' = is_open sw
            else sw' = sw.
Proof.
  apply (init_without_preference (fresh_page (storage_holding ∅))); reflexivity.
Defined.

Lemma option_of_code_Some c sw i :
  option_of_code c sw = Some i →
  ∃ it, items sw !! i = Some it ∧ data_lang it = Some c ∧ declared c sw.
Proof.
  unfold option_of_code. intros Hopt.
  destruct (list_find _ _) as [[i' it]|] eqn:Hfind; [|done].
  cbn in Hopt. simplify_eq.
  apply list_find_Some in Hfind as (Hi & Hc & _).
  exists it. split_and!; try done. exists it. split; [|done].
  by eapply list_elem_of_lookup_2.
Qed.

Lemma option_of_code_None c sw : option_of_code c sw = None → ¬ declared c sw.
Proof.
  intros Hopt Hdecl.
  destruct (declared_option_of_code c sw Hdecl) as (i & it & Hsome & _).
  congruence.
Qed.

(** X14. On a page whose storage can be read and holds a code [c] (not
    empty, written without quote, backslash or line-break characters),
    [initLanguageSwitcher] completes and brings every switcher with a toggle
    and a menu to the stored code: where [c] is declared, its option becomes
    the only active one and the selected code is [c]; where it is not, the
    switcher only gets its listeners and no option is activated. The storage
    and the dispatched events stay, and [dir] is left or set to "rtl", and
    left for every code other than "ar-EG". *)
Theorem init_with_preference p c :
  access_denied (localStorage p) = false →
  entries (localStorage p) !! preferredLanguage = Some c →
  c ≠ "" →
  css_plain c = true →
  ∃ p', initLanguageSwitcher p = Some (Completed p')
    ∧ localStorage p' = localStorage p
    ∧ dispatched p' = dispatched p
    ∧ (c ≠ "ar-EG" → dir p' = dir p)
    ∧ (dir p' = dir p ∨ dir p' = Some "rtl")
    ∧ ∀ k sw, switchers p !! k = Some sw →
        has_toggle sw && has_menu sw = true →
        ∃ sw', switchers p' !! k = Some sw'
          ∧ listening sw' = true
          ∧ (declared c sw →
               selectedCode sw' = Some c
               ∧ ∃ i, option_of_code c sw = Some i
                      ∧ active_flags sw'
                        = <[i := true]> (replicate (length (items sw)) false))
          ∧ (¬ declared c sw → sw' = set_listening sw).
Proof.
  intros Hden Hsome Hc Hplain.
  set (Q := λ sw sw' : switcher,
         has_toggle sw && has_menu sw = true →
         listening sw' = true
         ∧ (declared c sw →
              selectedCode sw' = Some c
              ∧ ∃ i, option_of_code c sw = Some i
                     ∧ active_flags sw'
                       = <[i := true]> (replicate (length (items sw)) false))
         ∧ (¬ declared c sw → sw' = set_listening sw)).
  set (D := λ d d' : option string,
         (c ≠ "ar-EG" → d' = d) ∧ (d' = d ∨ d' = Some "rtl")).
  destruct (forEach_switcher_seq (localStorage p) Q D) with
    (n := length (switchers p)) (a := 0) (p := p)
    as (p' & Hinit & Hst & Hev & Hact & [Hdir1 Hdir2] & _ & Hthis); try done.
  { intros d. unfold D. auto. }
  { intros d1 d2 d3 [H12 H12'] [H23 H23']. split.
    - intros Hne. rewrite H23, H12 by done. done.
    - destruct H23' as [->| ->]; auto. }
  { intros k q Hq. unfold setup_switcher.
    destruct (switchers q !! k) as [sw|] eqn:Hsw;
      [|exists q; split_and!; unfold D; auto; done].
    assert (Hk : k < length (switchers q)) by (by eapply lookup_lt_Some).
    destruct (has_toggle sw && has_menu sw) eqn:Hwired.
    - assert (getItem (localStorage (set_switcher k (set_listening sw) q))
                preferredLanguage = inr (Some c)) as Hget.
      { unfold getItem. cbn. by rewrite Hq, Hden, Hsome. }
      assert (switchers (set_switcher k (set_listening sw) q) !! k
              = Some (set_listening sw)) as Hsw1
        by (by apply lookup_set_switcher).
      destruct (option_of_code c sw) as [i|] eqn:Hopt.
      + destruct (option_of_code_Some c sw i Hopt) as (it & Hit & Hlang & Hdecl).
        rewrite (restore_declared k _ (set_listening sw) c i it Hsw1 Hget Hc
                   Hplain Hopt Hit).
        eexists. split; [reflexivity|].
        assert (∀ q2, switchers q2 = <[k := set_items (activate_only i (items sw))
                         (set_currentLabel (data_label it) (set_listening sw))]>
                        (switchers q) →
                  (∀ j, j ≠ k → switchers q2 !! j = switchers q !! j)
                  ∧ (∀ sw0, Some sw = Some sw0 →
                       ∃ sw', switchers q2 !! k = Some sw' ∧ Q sw0 sw')) as Hsws.
        { intros q2 ->. split.
          - intros j Hne. by rewrite list_lookup_insert_ne.
          - intros sw0 [= <-]. eexists.
            split; [by apply list_lookup_insert_eq|].
            intros _. split_and!.
            + cbn. by rewrite set_currentLabel_listening.
            + intros _. unfold selectedCode, active_flags. cbn.
              rewrite (activate_only_find i (items sw) it Hit).
              rewrite activate_only_flags. cbn. split; [done|]. by exists i.
            + intros Hnd. by destruct Hnd. }
        case_decide as Hrtl.
        * destruct (Hsws (set_dir "rtl" (set_switcher k
                     (set_items (activate_only i (items sw))
                        (set_currentLabel (data_label it) (set_listening sw)))
                     (set_switcher k (set_listening sw) q)))) as [Ho Ht].
          { cbn. by rewrite list_insert_insert_eq. }
          split_and!; try done. unfold D. cbn. split; [done|auto].
        * destruct (Hsws (set_switcher k
                     (set_items (activate_only i (items sw))
                        (set_currentLabel (data_label it) (set_listening sw)))
                     (set_switcher k (set_listening sw) q))) as [Ho Ht].
          { cbn. by rewrite list_insert_insert_eq. }
          split_and!; try done. unfold D. auto.
      + unfold restore. rewrite Hsw1, Hget, (truthy_nonempty c Hc).
        cbn [ToString]. unfold querySelector_data_lang. rewrite Hplain.
        unfold option_of_code in Hopt. cbn [items set_listening].
        rewrite Hopt. cbn [fmap option_fmap option_map].
        eexists. split; [reflexivity|]. split_and!; try done.
        * unfold D. auto.
        * intros j Hne. by apply lookup_set_switcher_ne.
        * intros sw0 [= <-]. eexists. split; [exact Hsw1|].
          intros _. split_and!; try done.
          intros Hdecl. destruct (declared_option_of_code c sw Hdecl)
            as (i & it & Hsome' & _).
          unfold option_of_code in Hsome'. congruence.
    - exists q. split_and!; try done; [unfold D; auto|].
      intros sw0 [= <-]. exists sw. split; [done|].
      unfold Q. congruence. }
  exists p'. split_and!; try done.
  intros k sw Hsw Hwired.
  destruct (Hthis k sw) as (sw' & Hsw' & HQ); [|done|].
  { apply lookup_lt_Some in Hsw. lia. }
  exists sw'. split; [done|]. by apply HQ.
Qed.

Lemma init_with_preference_witness :
  ∃ p', initLanguageSwitcher
          (fresh_page (storage_holding {[ preferredLanguage := "fr-FR" ]}))
        = Some (Completed p')
    ∧ localStorage p' = storage_holding {[ preferredLanguage := "fr-FR" ]}
    ∧ dispatched p' = []
    ∧ ("fr-FR" ≠ "ar-EG" → dir p' = None)
    ∧ (dir p' = None ∨ dir p' = Some "rtl")
    ∧ ∀ k sw,
        switchers (fresh_page (storage_holding {[ preferredLanguage := "fr-FR" ]}))
          !! k = Some sw →
        has_toggle sw && has_menu sw = true →
        ∃ sw', switchers p' !! k = Some sw'
          ∧ listening sw' = true
          ∧ (declared "fr-FR" sw →
               selectedCode sw' = Some "fr-FR"
               ∧ ∃ i, option_of_code "fr-FR" sw = Some i
                      ∧ active_flags sw'
                        = <[i := true]> (replicate (length (items sw)) false))
          ∧ (¬ declared "fr-FR" sw → sw' = set_listening sw).
Proof.
  apply (init_with_preference
           (fresh_page (storage_holding {[ preferredLanguage := "fr-FR" ]}))
           "fr-FR"); [reflexivity..|discriminate|reflexivity].
Defined.

(** * The mobile menu *)

Lemma activate_button_flags i btns :
  MobileMenu.btn_active <$> MobileMenu.activate_button i btns
  = <[i := true]> (replicate (length btns) false).
Proof.
  unfold MobileMenu.activate_button. revert i.
  induction btns as [|b btns IH]; intros [|i]; simpl; try done.
  - f_equal. clear IH. induction btns as [|? ? IH]; simpl; [done|by f_equal].
  - f_equal. apply IH.
Qed.

Lemma activate_button_lang i btns :
  MobileMenu.btn_lang <$> MobileMenu.activate_button i btns
  = MobileMenu.btn_lang <$> btns.
Proof.
  unfold MobileMenu.activate_button. revert i.
  induction btns as [|b btns IH]; intros [|i]; simpl; try done.
  - f_equal. clear IH. induction btns as [|? ? IH]; simpl; [done|by f_equal].
  - f_equal. apply IH.
Qed.

Lemma closeMenu_consistent m : MobileMenu.consistent (MobileMenu.closeMenu m).
Proof. unfold MobileMenu.consistent. by cbn. Qed.

Lemma openMenu_consistent m : MobileMenu.consistent (MobileMenu.openMenu m).
Proof. unfold MobileMenu.consistent. by cbn. Qed.

Lemma menuBtn_click_consistent m :
  MobileMenu.consistent (MobileMenu.menuBtn_click m).
Proof.
  unfold MobileMenu.menuBtn_click.
  destruct (MobileMenu.menu_open m);
    [apply closeMenu_consistent|apply openMenu_consistent].
Qed.

Lemma langBtn_click_menu i s :
  MobileMenu.menu (MobileMenu.site_of (MobileMenu.langBtn_click i s))
  = MobileMenu.menu s
  ∨ MobileMenu.menu (MobileMenu.site_of (MobileMenu.langBtn_click i s))
    = MobileMenu.set_langBtns
        (MobileMenu.activate_button i (MobileMenu.langBtns (MobileMenu.menu s)))
        (MobileMenu.menu s).
Proof.
  unfold MobileMenu.langBtn_click.
  destruct (MobileMenu.langBtns (MobileMenu.menu s) !! i); [|by left].
  cbn zeta. destruct (setItem _ _ _); by right.
Qed.

(** X15. The mobile menu keeps [aria-expanded] of its button, [aria-hidden]
    of the menu and the scroll lock of the body in step with its open state:
    every event of the site preserves the agreement, and a click on the menu
    button or on a menu link establishes it whatever the markup said
    before. *)
Theorem mobile_menu_stays_consistent ev s :
  (MobileMenu.consistent (MobileMenu.menu s) →
   MobileMenu.consistent (MobileMenu.menu (MobileMenu.site_dispatch ev s)))
  ∧ (MobileMenu.attached (MobileMenu.menu s) = true →
     MobileMenu.consistent
       (MobileMenu.menu (MobileMenu.site_dispatch
                           (MobileMenu.ClickControl MobileMenu.MenuBtn) s))
     ∧ MobileMenu.consistent
         (MobileMenu.menu (MobileMenu.site_dispatch
                             (MobileMenu.ClickControl MobileMenu.MenuItem) s))).
Proof.
  split.
  - intros Hcons. destruct ev as [c|[target|key]]; cbn; try done.
    + unfold MobileMenu.control_click.
      destruct (MobileMenu.attached (MobileMenu.menu s)); [|done].
      destruct c as [| | | |i]; cbn.
      * apply menuBtn_click_consistent.
      * destruct (MobileMenu.has_closeBtn (MobileMenu.menu s)); [|done].
        apply closeMenu_consistent.
      * destruct (MobileMenu.has_overlay (MobileMenu.menu s)); [|done].
        apply closeMenu_consistent.
      * apply closeMenu_consistent.
      * destruct (langBtn_click_menu i s) as [-> | ->]; done.
    + destruct (MobileMenu.attached (MobileMenu.menu s)); [|done].
      unfold MobileMenu.document_keydown. case_match; [|done].
      apply closeMenu_consistent.
  - intros Hatt. cbn. unfold MobileMenu.control_click. rewrite Hatt. cbn.
    split; [apply menuBtn_click_consistent|apply closeMenu_consistent].
Qed.

Lemma mobile_menu_stays_consistent_witness :
  MobileMenu.consistent
    (MobileMenu.menu
       (MobileMenu.site_dispatch (MobileMenu.OnPage (KeyDown "Escape"))
          (MobileMenu.mkSite (example_page full_storage)
                             (MobileMenu.example_mobile true)))).
Proof.
  apply (mobile_menu_stays_consistent (MobileMenu.OnPage (KeyDown "Escape"))
           (MobileMenu.mkSite (example_page full_storage)
                              (MobileMenu.example_mobile true))).
  unfold MobileMenu.consistent. by cbn.
Defined.

(** X16. On a menu in a consistent state, two clicks on the menu button
    bring the whole mobile menu back to the state it had. *)
Theorem menu_button_twice s :
  MobileMenu.attached (MobileMenu.menu s) = true →
  MobileMenu.consistent (MobileMenu.menu s) →
  MobileMenu.menu
    (MobileMenu.site_dispatch (MobileMenu.ClickControl MobileMenu.MenuBtn)
       (MobileMenu.site_dispatch (MobileMenu.ClickControl MobileMenu.MenuBtn) s))
  = MobileMenu.menu s.
Proof.
  intros Hatt (Hexp & Hhid & Hover). destruct s as [p m]. cbn in *.
  unfold MobileMenu.control_click. cbn. rewrite Hatt. cbn.
  unfold MobileMenu.menuBtn_click.
  destruct m as [? ? ? ? opn ? ? ? ? ?]. cbn in *. subst.
  by destruct opn.
Qed.

Lemma menu_button_twice_witness :
  MobileMenu.menu
    (MobileMenu.site_dispatch (MobileMenu.ClickControl MobileMenu.MenuBtn)
       (MobileMenu.site_dispatch (MobileMenu.ClickControl MobileMenu.MenuBtn)
          (MobileMenu.mkSite (example_page full_storage)
                             (MobileMenu.example_mobile false))))
  = MobileMenu.example_mobile false.
Proof.
  apply (menu_button_twice (MobileMenu.mkSite (example_page full_storage)
                                              (MobileMenu.example_mobile false))).
  - reflexivity.
  - unfold MobileMenu.consistent. by cbn.
Defined.

Lemma lookup_bubble_elsewhere p k sw :
  switchers p !! k = Some sw →
  ∃ sw', switchers (bubble_to_document Elsewhere p) !! k = Some sw'
    ∧ items sw' = items sw
    ∧ currentLabel sw' = currentLabel sw
    ∧ listening sw' = listening sw.
Proof.
  intros Hsw. rewrite lookup_bubble_to_document, Hsw. eexists.
  split; [reflexivity|]. unfold document_click. by case_match.
Qed.

(** X17. A click on a language button of the mobile menu, when the write to
    [localStorage] is accepted, marks that button active and the others
    inactive, stores its code under "preferredLanguage" and dispatches one
    "languageChange" event that carries the code and no label. Unlike the
    dropdown it never sets [dir], does not close the menu, and leaves the
    active option and the label of every dropdown as they were. *)
Theorem language_button_effects i btn s :
  MobileMenu.attached (MobileMenu.menu s) = true →
  MobileMenu.langBtns (MobileMenu.menu s) !! i = Some btn →
  access_denied (localStorage (MobileMenu.doc s)) = false →
  rejects_writes (localStorage (MobileMenu.doc s)) = false →
  let s' := MobileMenu.site_dispatch
              (MobileMenu.ClickControl (MobileMenu.LangBtn i)) s in
  MobileMenu.btn_active <$> MobileMenu.langBtns (MobileMenu.menu s')
  = <[i := true]> (replicate (length (MobileMenu.langBtns (MobileMenu.menu s))) false)
  ∧ MobileMenu.btn_lang <$> MobileMenu.langBtns (MobileMenu.menu s')
    = MobileMenu.btn_lang <$> MobileMenu.langBtns (MobileMenu.menu s)
  ∧ entries (localStorage (MobileMenu.doc s')) !! preferredLanguage
    = Some (ToString (MobileMenu.btn_lang btn))
  ∧ dispatched (MobileMenu.doc s')
    = dispatched (MobileMenu.doc s)
      ++ [mkEvent "languageChange" (MobileMenu.btn_lang btn) None]
  ∧ dir (MobileMenu.doc s') = dir (MobileMenu.doc s)
  ∧ MobileMenu.menu_open (MobileMenu.menu s') = MobileMenu.menu_open (MobileMenu.menu s)
  ∧ ∀ k sw, switchers (MobileMenu.doc s) !! k = Some sw →
      ∃ sw', switchers (MobileMenu.doc s') !! k = Some sw'
        ∧ items sw' = items sw
        ∧ currentLabel sw' = currentLabel sw.
Proof.
  intros Hatt Hbtn Hden Hrej s'. subst s'.
  cbn [MobileMenu.site_dispatch]. unfold MobileMenu.control_click.
  rewrite Hatt. unfold MobileMenu.langBtn_click. rewrite Hbtn.
  unfold setItem. rewrite Hden, Hrej. cbn.
  rewrite activate_button_flags, activate_button_lang, lookup_insert_eq.
  split_and!; try done.
  intros k sw Hsw.
  destruct (lookup_bubble_elsewhere (MobileMenu.doc s) k sw Hsw)
    as (sw' & Hsw' & Hits & Hlab & _).
  exists sw'. by split_and!.
Qed.

Lemma language_button_effects_witness :
  MobileMenu.btn_active
    <$> MobileMenu.langBtns
          (MobileMenu.menu
             (MobileMenu.site_dispatch
                (MobileMenu.ClickControl (MobileMenu.LangBtn 1))
                (MobileMenu.mkSite (example_page (storage_holding ∅))
                                   (MobileMenu.example_mobile true))))
  = [false; true; false]
  ∧ dir (MobileMenu.doc
           (MobileMenu.site_dispatch
              (MobileMenu.ClickControl (MobileMenu.LangBtn 1))
              (MobileMenu.mkSite (example_page (storage_holding ∅))
                                 (MobileMenu.example_mobile true))))
    = None
  ∧ dispatched (MobileMenu.doc
                  (MobileMenu.site_dispatch
                     (MobileMenu.ClickControl (MobileMenu.LangBtn 1))
                     (MobileMenu.mkSite (example_page (storage_holding ∅))
                                        (MobileMenu.example_mobile true))))
    = [mkEvent "languageChange" (Some "ar-EG") None].
Proof.
  destruct (language_button_effects 1 (MobileMenu.mkLangButton (Some "ar-EG") false)
              (MobileMenu.mkSite (example_page (storage_holding ∅))
                                 (MobileMenu.example_mobile true))
              eq_refl eq_refl eq_refl eq_refl)
    as (Hact & _ & _ & Hev & Hdir & _).
  split_and!; [exact Hact|exact Hdir|exact Hev].
Defined.

(** X18. When the write to [localStorage] throws, the click on a language
    button of the mobile menu has already moved the active mark to that
    button, and nothing is stored and no event is dispatched. *)
Theorem language_button_rejected i btn s :
  MobileMenu.langBtns (MobileMenu.menu s) !! i = Some btn →
  access_denied (localStorage (MobileMenu.doc s))
  || rejects_writes (localStorage (MobileMenu.doc s)) = true →
  ∃ e s', MobileMenu.langBtn_click i s = MobileMenu.Failed e s'
    ∧ MobileMenu.btn_active <$> MobileMenu.langBtns (MobileMenu.menu s')
      = <[i := true]>
          (replicate (length (MobileMenu.langBtns (MobileMenu.menu s))) false)
    ∧ MobileMenu.doc s' = MobileMenu.doc s.
Proof.
  intros Hbtn Hbad. unfold MobileMenu.langBtn_click. rewrite Hbtn.
  unfold setItem. cbn zeta.
  destruct (access_denied (localStorage (MobileMenu.doc s))).
  - eexists _, _. split; [reflexivity|]. cbn.
    by rewrite activate_button_flags.
  - cbn in Hbad. rewrite Hbad. eexists _, _. split; [reflexivity|]. cbn.
    by rewrite activate_button_flags.
Qed.

Lemma language_button_rejected_witness :
  ∃ e s', MobileMenu.langBtn_click 2
            (MobileMenu.mkSite (example_page full_storage)
                               (MobileMenu.example_mobile true))
          = MobileMenu.Failed e s'
    ∧ MobileMenu.btn_active <$> MobileMenu.langBtns (MobileMenu.menu s')
      = [false; false; true]
    ∧ MobileMenu.doc s' = example_page full_storage.
Proof.
  apply (language_button_rejected 2 (MobileMenu.mkLangButton (Some "fr-FR") false)
           (MobileMenu.mkSite (example_page full_storage)
                              (MobileMenu.example_mobile true)));
    reflexivity.
Defined.

(** X19. What a language button of the mobile menu stores, the dropdown
    restores: after an accepted click on a button with code [c] (not empty,
    written without quote, backslash or line-break characters), [restore] on
    a switcher that declares [c] completes with [c] as the selected code. *)
Theorem language_button_then_restore i btn c k sw s :
  MobileMenu.attached (MobileMenu.menu s) = true →
  MobileMenu.langBtns (MobileMenu.menu s) !! i = Some btn →
  MobileMenu.btn_lang btn = Some c →
  c ≠ "" →
  css_plain c = true →
  access_denied (localStorage (MobileMenu.doc s)) = false →
  rejects_writes (localStorage (MobileMenu.doc s)) = false →
  switchers (MobileMenu.doc s) !! k = Some sw →
  declared c sw →
  ∃ p' sw',
    restore k (MobileMenu.doc (MobileMenu.site_dispatch
                                 (MobileMenu.ClickControl (MobileMenu.LangBtn i)) s))
    = Some (Completed p')
    ∧ switchers p' !! k = Some sw'
    ∧ selectedCode sw' = Some c.
Proof.
  intros Hatt Hbtn Hlang Hc Hplain Hden Hrej Hsw Hdecl.
  destruct (declared_option_of_code c sw Hdecl) as (j & it & Hopt & Hit & Hcode).
  cbn [MobileMenu.site_dispatch]. unfold MobileMenu.control_click.
  rewrite Hatt. unfold MobileMenu.langBtn_click. rewrite Hbtn.
  unfold setItem. rewrite Hden, Hrej, Hlang. cbn [MobileMenu.site_of
    MobileMenu.doc MobileMenu.menu ToString].
  set (q := bubble_to_document Elsewhere _).
  destruct (lookup_bubble_elsewhere
              (dispatchEvent (mkEvent "languageChange" (Some c) None)
                 (set_localStorage
                    (mkStorage (<[preferredLanguage := c]>
                                  (entries (localStorage (MobileMenu.doc s))))
                               false false)
                    (MobileMenu.doc s))) k sw Hsw)
    as (swq & Hswq & Hits & _ & _).
  fold q in Hswq.
  assert (getItem (localStorage q) preferredLanguage = inr (Some c)) as Hget.
  { unfold getItem. cbn. by rewrite lookup_insert_eq. }
  assert (option_of_code c swq = Some j) as Hoptq.
  { unfold option_of_code. rewrite Hits. exact Hopt. }
  assert (items swq !! j = Some it) as Hitq by (by rewrite Hits).
  rewrite (restore_declared k q swq c j it Hswq Hget Hc Hplain Hoptq Hitq).
  eexists _, _. split; [reflexivity|]. split.
  - case_decide; apply lookup_set_switcher; by eapply lookup_lt_Some.
  - unfold selectedCode. cbn [items set_items].
    rewrite (activate_only_find j (items swq) it Hitq). cbn. exact Hcode.
Qed.

Lemma language_button_then_restore_witness :
  ∃ p' sw',
    restore 1 (MobileMenu.doc
                 (MobileMenu.site_dispatch
                    (MobileMenu.ClickControl (MobileMenu.LangBtn 2))
                    (MobileMenu.mkSite (example_page (storage_holding ∅))
                                       (MobileMenu.example_mobile true))))
    = Some (Completed p')
    ∧ switchers p' !! 1 = Some sw'
    ∧ selectedCode sw' = Some "fr-FR".
Proof.
  apply (language_button_then_restore 2
           (MobileMenu.mkLangButton (Some "fr-FR") false) "fr-FR" 1
           (example_switcher false [english; arabic; french])
           (MobileMenu.mkSite (example_page (storage_holding ∅))
                              (MobileMenu.example_mobile true)));
    try reflexivity.
  - discriminate.
  - exists french. split; [|reflexivity]. apply list_elem_of_In. simpl. tauto.
Defined.

(** X20. One Escape closes both: with the mobile menu open and the focus on
    an option of an open dropdown, the key closes the dropdown through the
    listener of its menu and the mobile menu through the listener on
    [document]. With the mobile menu closed, the key leaves the mobile menu
    exactly as it is. *)
Theorem escape_closes_dropdown_and_mobile_menu k i sw s :
  MobileMenu.attached (MobileMenu.menu s) = true →
  switchers (MobileMenu.doc s) !! k = Some sw →
  listening sw = true →
  activeElement (MobileMenu.doc s) = Item k i →
  let s' := MobileMenu.site_dispatch (MobileMenu.OnPage (KeyDown "Escape")) s in
  (is_open <$> switchers (MobileMenu.doc s') !! k) = Some false
  ∧ (MobileMenu.menu_open (MobileMenu.menu s) = true →
     MobileMenu.menu_open (MobileMenu.menu s') = false
     ∧ MobileMenu.body_overflow (MobileMenu.menu s') = "")
  ∧ (MobileMenu.menu_open (MobileMenu.menu s) = false →
     MobileMenu.menu s' = MobileMenu.menu s).
Proof.
  intros Hatt Hsw Hl Hfocus s'. subst s'. cbn [MobileMenu.site_dispatch
    MobileMenu.doc MobileMenu.menu]. rewrite Hatt. split_and!.
  - unfold dispatch, is_listening. rewrite Hfocus, Hsw, Hl.
    unfold menu_keydown. rewrite Hsw. cbn.
    rewrite list_lookup_insert_eq; [done|]. by eapply lookup_lt_Some.
  - intros Hopen. unfold MobileMenu.document_keydown. by rewrite Hopen.
  - intros Hclosed. unfold MobileMenu.document_keydown. by rewrite Hclosed.
Qed.

Lemma escape_closes_dropdown_and_mobile_menu_witness :
  (is_open <$> switchers
     (MobileMenu.doc
        (MobileMenu.site_dispatch (MobileMenu.OnPage (KeyDown "Escape"))
           (MobileMenu.mkSite (example_page full_storage)
                              (MobileMenu.example_mobile true)))) !! 0)
  = Some false
  ∧ MobileMenu.menu_open
      (MobileMenu.menu
         (MobileMenu.site_dispatch (MobileMenu.OnPage (KeyDown "Escape"))
            (MobileMenu.mkSite (example_page full_storage)
                               (MobileMenu.example_mobile true))))
    = false.
Proof.
  destruct (escape_closes_dropdown_and_mobile_menu 0 0
              (example_switcher true [english; arabic])
              (MobileMenu.mkSite (example_page full_storage)
                                 (MobileMenu.example_mobile true))
              eq_refl eq_refl eq_refl eq_refl) as (Hdrop & Hopen & _).
  split; [exact Hdrop|]. by apply Hopen.
Defined.

(** * The help panel *)

(** X21. After a click on the help toggle the panel is hidden exactly when
    the toggle said "true" before, and [aria-expanded] says "false" exactly
    when the panel is hidden: a toggle whose attribute is missing or is
    anything but "true" opens the panel. *)
Theorem trouble_click_shows_or_hides t :
  TroubleToggle.attached t = true →
  (TroubleToggle.tips_hidden (TroubleToggle.toggleBtn_click t) = true
   ↔ TroubleToggle.toggle_expanded t = Some "true")
  ∧ TroubleToggle.toggle_expanded (TroubleToggle.toggleBtn_click t)
    = Some (if TroubleToggle.tips_hidden (TroubleToggle.toggleBtn_click t)
            then "false" else "true").
Proof.
  intros Hatt. unfold TroubleToggle.toggleBtn_click. rewrite Hatt. cbn.
  split.
  - apply bool_decide_eq_true.
  - by destruct (bool_decide _).
Qed.

Lemma trouble_click_shows_or_hides_witness :
  (TroubleToggle.tips_hidden
     (TroubleToggle.toggleBtn_click
        (TroubleToggle.mkTrouble true true None true true)) = true
   ↔ None = Some "true")
  ∧ TroubleToggle.toggle_expanded
      (TroubleToggle.toggleBtn_click
         (TroubleToggle.mkTrouble true true None true true))
    = Some (if TroubleToggle.tips_hidden
                 (TroubleToggle.toggleBtn_click
                    (TroubleToggle.mkTrouble true true None true true))
            then "false" else "true").
Proof.
  apply (trouble_click_shows_or_hides
           (TroubleToggle.mkTrouble true true None true true)).
  reflexivity.
Defined.

Lemma trouble_click_twice t :
  TroubleToggle.attached t = true →
  TroubleToggle.toggleBtn_click
    (TroubleToggle.toggleBtn_click (TroubleToggle.toggleBtn_click t))
  = TroubleToggle.toggleBtn_click t.
Proof.
  intros Hatt. destruct t as [btn tips expanded hid att]. cbn in Hatt. subst att.
  unfold TroubleToggle.toggleBtn_click. cbn.
  by destruct (bool_decide (expanded = Some "true")).
Qed.

(** X22. From the first click on, the help toggle alternates between two
    states: two more clicks always bring the panel and the attribute back. *)
Theorem trouble_clicks_alternate n t :
  TroubleToggle.attached t = true →
  TroubleToggle.clicks (S (S (S n))) t = TroubleToggle.clicks (S n) t.
Proof.
  revert t. induction n as [|n IH]; intros t Hatt.
  - cbn. by apply trouble_click_twice.
  - change (TroubleToggle.clicks (S (S (S n))) (TroubleToggle.toggleBtn_click t)
            = TroubleToggle.clicks (S n) (TroubleToggle.toggleBtn_click t)).
    apply IH. unfold TroubleToggle.toggleBtn_click. by rewrite Hatt.
Qed.

Lemma trouble_clicks_alternate_witness :
  TroubleToggle.clicks 5 (TroubleToggle.mkTrouble true true (Some "false") true true)
  = TroubleToggle.clicks 3 (TroubleToggle.mkTrouble true true (Some "false") true true).
Proof.
  apply (trouble_clicks_alternate 2
           (TroubleToggle.mkTrouble true true (Some "false") true true)).
  reflexivity.
Defined.

(** * Form validation *)

Lemma trimStart_nil v :
  FormValidation.trimStart v = [] ↔ FormValidation.blank v = true.
Proof.
  unfold FormValidation.blank. induction v as [|c v IH]; cbn; [done|].
  destruct (FormValidation.is_white_space c); cbn; [done|].
  split; discriminate.
Qed.

Lemma trimStart_blank v :
  FormValidation.blank (FormValidation.trimStart v) = true →
  FormValidation.blank v = true.
Proof.
  unfold FormValidation.blank. induction v as [|c v IH]; cbn; [done|].
  destruct (FormValidation.is_white_space c) eqn:Hc; cbn; [done|].
  by rewrite Hc.
Qed.

Lemma blank_rev v :
  FormValidation.blank (rev v) = FormValidation.blank v.
Proof.
  unfold FormValidation.blank. induction v as [|c v IH]; cbn; [done|].
  rewrite forallb_app, IH. cbn. rewrite andb_true_r. apply andb_comm.
Qed.

Lemma trim_nil v :
  FormValidation.trim v = [] ↔ FormValidation.blank v = true.
Proof.
  unfold FormValidation.trim, FormValidation.trimEnd. split.
  - intros Htrim. apply trimStart_blank. rewrite <- blank_rev.
    apply trimStart_nil. apply (f_equal (@rev N)) in Htrim.
    by rewrite rev_involutive in Htrim.
  - intros Hblank. apply trimStart_nil in Hblank. by rewrite Hblank.
Qed.

Lemma check_fields_spec fs : ∀ isValid,
  FormValidation.check_fields isValid fs
  = (isValid && forallb FormValidation.acceptable fs, FormValidation.marked <$> fs).
Proof.
  induction fs as [|f fs IH]; intros isValid; cbn.
  - by rewrite andb_true_r.
  - unfold FormValidation.acceptable at 1, FormValidation.marked at 1.
    destruct (FormValidation.required f) eqn:Hreq; cbn.
    + unfold FormValidation.check_field.
      destruct (FormValidation.trim (FormValidation.value f)) as [|c w] eqn:Htrim.
      * apply trim_nil in Htrim. rewrite IH, Htrim. cbn.
        by rewrite andb_false_r.
      * assert (FormValidation.blank (FormValidation.value f) = false) as ->.
        { apply not_true_is_false. intros Hblank.
          apply trim_nil in Hblank. congruence. }
        by rewrite IH.
    + by rewrite IH.
Qed.

Lemma forallb_acceptable_false fs :
  forallb FormValidation.acceptable fs = false
  ↔ ∃ f, f ∈ fs ∧ FormValidation.required f = true
         ∧ FormValidation.blank (FormValidation.value f) = true.
Proof.
  induction fs as [|f fs IH]; cbn.
  - split; [done|]. intros (f & Hin & _). by apply elem_of_nil in Hin.
  - rewrite andb_false_iff, IH. unfold FormValidation.acceptable at 1. split.
    + intros [Hf|(g & Hin & Hg)].
      * exists f. split; [apply list_elem_of_here|].
        apply orb_false_iff in Hf as [Hreq Hblank].
        by apply negb_false_iff in Hreq, Hblank.
      * exists g. split; [by apply list_elem_of_further|done].
    + intros (g & Hin & Hreq & Hblank).
      apply elem_of_cons in Hin as [->|Hin].
      * left. by rewrite Hreq, Hblank.
      * right. by exists g.
Qed.

(** X23. A submission is stopped exactly when the form is one with
    [data-validate] and some required field is blank, that is, empty or made
    only of the white space that [trim] removes. *)
Theorem submit_prevented_iff fm :
  (FormValidation.submit fm).2 = true
  ↔ FormValidation.data_validate fm = true
    ∧ ∃ f, f ∈ FormValidation.fields fm
           ∧ FormValidation.required f = true
           ∧ FormValidation.blank (FormValidation.value f) = true.
Proof.
  unfold FormValidation.submit.
  destruct (FormValidation.data_validate fm).
  - rewrite check_fields_spec. cbn.
    rewrite negb_true_iff, forallb_acceptable_false. tauto.
  - cbn. split; [discriminate|]. intros [Hfalse _]. discriminate Hfalse.
Qed.

(** X24. After a submission of a form with [data-validate], a required
    field carries the invalid mark exactly when its value is blank, whatever
    mark it had before; the fields that are not required and all values are
    untouched. *)
Theorem submit_marks_blank_fields fm i f :
  FormValidation.data_validate fm = true →
  FormValidation.fields fm !! i = Some f →
  FormValidation.fields (FormValidation.submit fm).1 !! i
  = Some (if FormValidation.required f
          then FormValidation.mkField true (FormValidation.value f)
                 (FormValidation.blank (FormValidation.value f))
          else f).
Proof.
  intros Hval Hf. unfold FormValidation.submit. rewrite Hval.
  rewrite check_fields_spec. cbn. rewrite list_lookup_fmap, Hf. cbn.
  unfold FormValidation.marked, FormValidation.set_invalid.
  by destruct (FormValidation.required f) eqn:Hreq.
Qed.

Lemma submit_marks_blank_fields_witness :
  FormValidation.fields
    (FormValidation.submit
       (FormValidation.mkForm true
          [FormValidation.mkField true [32%N; 9%N] false;
           FormValidation.mkField true [72%N; 105%N] true])).1 !! 1
  = Some (FormValidation.mkField true [72%N; 105%N] false).
Proof.
  apply (submit_marks_blank_fields
           (FormValidation.mkForm true
              [FormValidation.mkField true [32%N; 9%N] false;
               FormValidation.mkField true [72%N; 105%N] true])
           1 (FormValidation.mkField true [72%N; 105%N] true)); reflexivity.
Defined.

Lemma marked_idempotent f :
  FormValidation.marked (FormValidation.marked f) = FormValidation.marked f.
Proof.
  unfold FormValidation.marked.
  destruct (FormValidation.required f) eqn:Hreq; cbn; by rewrite ?Hreq.
Qed.

Lemma acceptable_marked f :
  FormValidation.acceptable (FormValidation.marked f)
  = FormValidation.acceptable f.
Proof.
  unfold FormValidation.marked, FormValidation.acceptable.
  destruct (FormValidation.required f) eqn:Hreq; cbn; by rewrite ?Hreq.
Qed.

Lemma marked_fields_again fs :
  FormValidation.marked <$> (FormValidation.marked <$> fs)
  = FormValidation.marked <$> fs
  ∧ forallb FormValidation.acceptable (FormValidation.marked <$> fs)
    = forallb FormValidation.acceptable fs.
Proof.
  induction fs as [|f fs [IH1 IH2]]; cbn; [done|].
  by rewrite marked_idempotent, acceptable_marked, IH1, IH2.
Qed.

(** X25. Validation is idempotent: submitting a form again without editing
    it gives the same marks and the same verdict. *)
Theorem submit_idempotent fm :
  FormValidation.submit (FormValidation.submit fm).1 = FormValidation.submit fm.
Proof.
  unfold FormValidation.submit.
  destruct (FormValidation.data_validate fm) eqn:Hval;
    [|cbn; by rewrite Hval].
  rewrite check_fields_spec. cbn. rewrite ?Hval, check_fields_spec. cbn.
  destruct (marked_fields_again (FormValidation.fields fm)) as [-> ->].
  by rewrite ?Hval.
Qed.

(** * The video player *)

(** X26. A lazy iframe is loaded once: on a wrapper without video, a click
    on the play button marks the wrapper as playing and sets the [src] of
    the iframe from [data-src] only when the iframe has no [src] yet and
    [data-src] is not empty; a [src] that is present is never replaced, and
    a second click changes nothing. *)
Theorem iframe_loaded_once w f :
  VideoPlayer.has_playBtn w = true →
  VideoPlayer.video w = None →
  VideoPlayer.iframe w = Some f →
  VideoPlayer.is_playing (VideoPlayer.player_step VideoPlayer.ClickPlay w) = true
  ∧ VideoPlayer.iframe (VideoPlayer.player_step VideoPlayer.ClickPlay w)
    = Some (VideoPlayer.mkIframe (VideoPlayer.data_src f)
              (match VideoPlayer.src f with
               | Some u => Some u
               | None => if truthy (VideoPlayer.data_src f)
                         then VideoPlayer.data_src f else None
               end))
  ∧ VideoPlayer.player_step VideoPlayer.ClickPlay
      (VideoPlayer.player_step VideoPlayer.ClickPlay w)
    = VideoPlayer.player_step VideoPlayer.ClickPlay w.
Proof.
  intros Hbtn Hvideo Hiframe.
  assert (Hsome : ∀ u : string, bool_decide (is_Some (Some u)) = true)
    by (intros u; by apply bool_decide_eq_true_2).
  assert (Hnone : bool_decide (is_Some (@None string)) = false)
    by (apply bool_decide_eq_false_2; by intros [? ?]).
  destruct w as [btn thumb playing vid ifr]. cbn in Hbtn, Hvideo, Hiframe. subst.
  unfold VideoPlayer.player_step, VideoPlayer.playVideo.
  cbn [VideoPlayer.has_playBtn VideoPlayer.video VideoPlayer.iframe
       VideoPlayer.is_playing VideoPlayer.has_thumbnail].
  destruct f as [dsrc [u|]];
    cbn [VideoPlayer.src VideoPlayer.data_src]; rewrite ?Hsome, ?Hnone.
  - rewrite andb_false_r.
    cbn [VideoPlayer.src VideoPlayer.data_src]. rewrite ?Hsome.
    by rewrite andb_false_r.
  - rewrite andb_true_r. destruct (truthy dsrc) eqn:Htruthy.
    + cbn [VideoPlayer.src VideoPlayer.data_src].
      destruct dsrc as [d|]; [|done]. rewrite Hsome.
      by rewrite andb_false_r.
    + cbn [VideoPlayer.src VideoPlayer.data_src]. rewrite Hnone, Htruthy.
      done.
Qed.

Lemma iframe_loaded_once_witness :
  VideoPlayer.is_playing
    (VideoPlayer.player_step VideoPlayer.ClickPlay
       (VideoPlayer.mkWrapper true true false None
          (Some (VideoPlayer.mkIframe (Some "https://example.org/v") None))))
  = true
  ∧ VideoPlayer.iframe
      (VideoPlayer.player_step VideoPlayer.ClickPlay
         (VideoPlayer.mkWrapper true true false None
            (Some (VideoPlayer.mkIframe (Some "https://example.org/v") None))))
    = Some (VideoPlayer.mkIframe (Some "https://example.org/v")
              (Some "https://example.org/v"))
  ∧ VideoPlayer.player_step VideoPlayer.ClickPlay
      (VideoPlayer.player_step VideoPlayer.ClickPlay
         (VideoPlayer.mkWrapper true true false None
            (Some (VideoPlayer.mkIframe (Some "https://example.org/v") None))))
    = VideoPlayer.player_step VideoPlayer.ClickPlay
        (VideoPlayer.mkWrapper true true false None
           (Some (VideoPlayer.mkIframe (Some "https://example.org/v") None))).
Proof.
  apply (iframe_loaded_once
           (VideoPlayer.mkWrapper true true false None
              (Some (VideoPlayer.mkIframe (Some "https://example.org/v") None)))
           (VideoPlayer.mkIframe (Some "https://example.org/v") None));
    reflexivity.
Defined.

(** X27. A wrapper with a video plays the video and never touches its
    iframe: a click on the play button, or Enter or Space on it, turns the
    controls on and calls [play] once; when the video ends the wrapper is no
    longer playing, the controls are off and the time is back to 0. Any
    other key on the play button does nothing. *)
Theorem video_play_and_end w v key :
  VideoPlayer.has_playBtn w = true →
  VideoPlayer.video w = Some v →
  VideoPlayer.player_step VideoPlayer.ClickPlay w
  = VideoPlayer.mkWrapper true (VideoPlayer.has_thumbnail w) true
      (Some (VideoPlayer.mkVideo true (VideoPlayer.currentTime v)
               (S (VideoPlayer.play_calls v))))
      (VideoPlayer.iframe w)
  ∧ VideoPlayer.player_step VideoPlayer.Ended
      (VideoPlayer.player_step VideoPlayer.ClickPlay w)
    = VideoPlayer.mkWrapper true (VideoPlayer.has_thumbnail w) false
        (Some (VideoPlayer.mkVideo false 0%Q (S (VideoPlayer.play_calls v))))
        (VideoPlayer.iframe w)
  ∧ VideoPlayer.player_step (VideoPlayer.KeyOnPlay key) w
    = if decide (key = "Enter" ∨ key = " ")
      then VideoPlayer.player_step VideoPlayer.ClickPlay w
      else w.
Proof.
  intros Hbtn Hvideo.
  destruct w as [btn thumb playing vid ifr]. cbn in Hbtn, Hvideo. subst.
  split_and!.
  - done.
  - done.
  - unfold VideoPlayer.player_step. cbn [VideoPlayer.has_playBtn].
    destruct (String.eqb_spec key "Enter") as [->|HE].
    { by rewrite decide_True by auto. }
    destruct (String.eqb_spec key " ") as [->|HS].
    { by rewrite decide_True by auto. }
    rewrite decide_False; [done|]. by intros [?|?].
Qed.

Lemma video_play_and_end_witness :
  VideoPlayer.player_step VideoPlayer.Ended
    (VideoPlayer.player_step VideoPlayer.ClickPlay
       (VideoPlayer.mkWrapper true false false
          (Some (VideoPlayer.mkVideo false 0%Q 0)) None))
  = VideoPlayer.mkWrapper true false false
      (Some (VideoPlayer.mkVideo false 0%Q 1)) None.
Proof.
  destruct (video_play_and_end
              (VideoPlayer.mkWrapper true false false
                 (Some (VideoPlayer.mkVideo false 0%Q 0)) None)
              (VideoPlayer.mkVideo false 0%Q 0) "Enter" eq_refl eq_refl)
    as (_ & Hend & _).
  exact Hend.
Defined.

(** * The header on scroll *)

Lemma window_step_throttled ev s :
  HeaderScroll.throttled s → HeaderScroll.throttled (HeaderScroll.window_step ev s).
Proof.
  unfold HeaderScroll.throttled.
  destruct s as [y cls tick req]. cbn.
  intros [[-> ->]|[-> ->]]; destruct ev as [y'|]; cbn; auto.
Qed.

Lemma run_throttled evs : ∀ s,
  HeaderScroll.throttled s → HeaderScroll.throttled (HeaderScroll.run evs s).
Proof.
  unfold HeaderScroll.run.
  induction evs as [|ev evs IH]; intros s Hs; cbn; [done|].
  apply IH. by apply window_step_throttled.
Qed.

(** X28. Scrolling is throttled: however scroll events and animation frames
    interleave after the setup, at most one callback is waiting for the next
    frame, and [ticking] is true exactly while one is. *)
Theorem scroll_requests_one_frame evs y cls :
  HeaderScroll.requested (HeaderScroll.run evs (HeaderScroll.initial y cls)) ≤ 1
  ∧ HeaderScroll.ticking (HeaderScroll.run evs (HeaderScroll.initial y cls))
    = bool_decide
        (HeaderScroll.requested (HeaderScroll.run evs (HeaderScroll.initial y cls))
         = 1).
Proof.
  assert (HeaderScroll.throttled (HeaderScroll.initial y cls)) as Hinit
    by (left; by cbn).
  destruct (run_throttled evs _ Hinit) as [[-> ->]|[-> ->]]; split; done || lia.
Qed.

(** X29. Once the frame after a scroll has run, the header carries
    [header--scrolled] exactly when the window is scrolled past 10 pixels,
    whatever happened before, and no callback is left waiting. *)
Theorem header_follows_scroll evs y0 cls y :
  (HeaderScroll.scrolled
     (HeaderScroll.run (evs ++ [HeaderScroll.Scroll y; HeaderScroll.Frame])
        (HeaderScroll.initial y0 cls)) = true
   ↔ (10 < y)%Q)
  ∧ HeaderScroll.ticking
      (HeaderScroll.run (evs ++ [HeaderScroll.Scroll y; HeaderScroll.Frame])
         (HeaderScroll.initial y0 cls)) = false
  ∧ HeaderScroll.requested
      (HeaderScroll.run (evs ++ [HeaderScroll.Scroll y; HeaderScroll.Frame])
         (HeaderScroll.initial y0 cls)) = 0.
Proof.
  unfold HeaderScroll.run. rewrite fold_left_app.
  fold (HeaderScroll.run evs (HeaderScroll.initial y0 cls)).
  assert (HeaderScroll.throttled (HeaderScroll.initial y0 cls)) as Hinit
    by (left; by cbn).
  pose proof (run_throttled evs _ Hinit) as Hthr. clear Hinit.
  destruct (HeaderScroll.run evs (HeaderScroll.initial y0 cls))
    as [y1 cls1 tick req].
  unfold HeaderScroll.throttled in Hthr. cbn in Hthr.
  assert (HeaderScroll.past_threshold y = true ↔ (10 < y)%Q) as Hpast.
  { unfold HeaderScroll.past_threshold.
    destruct (Qlt_le_dec 10 y) as [Hlt|Hle]; [done|].
    split; [discriminate|]. intros Hlt. by apply Qle_not_lt in Hle. }
  destruct Hthr as [[-> ->]|[-> ->]]; cbn; by split_and!.
Qed.

(** * The setup for every stored value *)

(** ** [restore] as a relation *)

Lemma answers_exists k p : ∃ a, answers k p a.
Proof.
  unfold answers.
  destruct (switchers p !! k) as [sw|]; [|by exists NoMatch].
  destruct (getItem (localStorage p) preferredLanguage) as [e|[v|]];
    [by exists NoMatch| |by exists NoMatch].
  unfold may_answer. destruct (css_plain v); [by eexists|by exists Rejected].
Qed.

Lemma restores_total k p : ∃ r, restores k p r.
Proof.
  destruct (answers_exists k p) as [a Ha]. exists (restore_on a k p).
  by exists a.
Qed.

(** The function [restore] gives one of the outcomes of the relation. *)
Lemma restore_restores k p r : restore k p = Some r → restores k p r.
Proof.
  intros Hr. unfold restore in Hr. unfold restores, answers, restore_on.
  destruct (switchers p !! k) as [sw|]; [|exists NoMatch; by simplify_eq].
  destruct (getItem (localStorage p) preferredLanguage) as [e|[v|]].
  - exists NoMatch. by simplify_eq.
  - unfold may_answer. cbn [ToString] in Hr.
    unfold querySelector_data_lang in Hr.
    destruct (css_plain v).
    + destruct (list_find (λ it, data_lang it = Some v) (items sw))
        as [[i it]|] eqn:Hfind.
      * exists (MatchedItem i). split; [done|].
        destruct (truthy (Some v)); [|destruct (items sw); by simplify_eq].
        cbn [fmap option_fmap option_map fst] in Hr.
        cbn [ToString]. case_decide; by simplify_eq.
      * exists NoMatch. split; [done|].
        destruct (truthy (Some v)); [|destruct (items sw); by simplify_eq].
        cbn [fmap option_fmap option_map] in Hr. by simplify_eq.
    + exists Rejected. split; [done|].
      destruct (truthy (Some v)); [done|]. destruct (items sw); by simplify_eq.
  - exists NoMatch. split; [done|]. cbn [truthy] in Hr. cbn [truthy].
    destruct (items sw); by simplify_eq.
Qed.

Lemma restore_on_other_switcher a j k p :
  k ≠ j → switchers (page_of (restore_on a j p)) !! k = switchers p !! k.
Proof.
  intros Hne. unfold restore_on.
  repeat case_match; cbn; try done; by rewrite list_lookup_insert_ne.
Qed.

Lemma restore_on_dir a k p savedLang :
  getItem (localStorage p) preferredLanguage = inr savedLang →
  savedLang ≠ Some "ar-EG" →
  dir (page_of (restore_on a k p)) = dir p.
Proof.
  intros Hget Hne. unfold restore_on. rewrite Hget.
  destruct (switchers p !! k) as [sw|]; [|done].
  destruct (truthy savedLang) eqn:Htruthy; [|by destruct (items sw)].
  assert (ToString savedLang ≠ "ar-EG") as Hstr.
  { destruct savedLang as [v|]; [|done]. cbn. by intros ->. }
  destruct a; try done; by rewrite decide_False.
Qed.

(** C10. [restore] with a stored code that an option declares sets the [dir]
    attribute of the root element to "rtl" when the code is "ar-EG". For
    every other declared stored code, whatever selector the code makes at
    line 368 and however [restore] then ends (also with a SyntaxError), the
    attribute is as it was: it never writes "ltr". *)
Theorem restore_direction k sw p c :
  switchers p !! k = Some sw →
  declared c sw →
  getItem (localStorage p) preferredLanguage = inr (Some c) →
  (∃ r, restores k p r)
  ∧ (c = "ar-EG" →
     ∀ r, restores k p r → ∃ p', r = Completed p' ∧ dir p' = Some "rtl")
  ∧ (c ≠ "ar-EG" → ∀ r, restores k p r → dir (page_of r) = dir p).
Proof.
  intros Hsw Hdecl Hget. split_and!.
  - apply restores_total.
  - intros -> r (a & Ha & ->).
    destruct (declared_option_of_code "ar-EG" sw Hdecl)
      as (i & it & Hopt & Hit & Hlang).
    unfold answers in Ha. rewrite Hsw, Hget in Ha.
    unfold may_answer in Ha. cbn [css_plain] in Ha.
    unfold option_of_code in Hopt.
    destruct (list_find (λ it, data_lang it = Some "ar-EG") (items sw))
      as [[i' it']|]; [|done].
    assert (a = MatchedItem i') as -> by exact Ha.
    unfold restore_on. rewrite Hsw, Hget. cbn [truthy ToString].
    eexists. split; [reflexivity|]. done.
  - intros Hne r (a & _ & ->).
    apply (restore_on_dir a k p (Some c) Hget). by intros [= ->].
Qed.

Lemma restore_direction_witness :
  dir (page_of (restore_on Rejected 0
                  (escaped_page (storage_holding {[ preferredLanguage := "fr\FR" ]}))))
  = Some "rtl"
  ∧ dir (page_of (restore_on (MatchedItem 0) 0
                    (escaped_page (storage_holding {[ preferredLanguage := "fr\FR" ]}))))
    = Some "rtl"
  ∧ ∃ p', restore_on (MatchedItem 1) 0
            (fresh_page (storage_holding {[ preferredLanguage := "ar-EG" ]}))
          = Completed p' ∧ dir p' = Some "rtl".
Proof.
  destruct (restore_direction 0 (fresh_switcher [english; escaped])
              (escaped_page (storage_holding {[ preferredLanguage := "fr\FR" ]}))
              "fr\FR" eq_refl) as (_ & _ & Hother).
  { exists escaped. split; [|reflexivity]. apply list_elem_of_In. simpl. tauto. }
  { reflexivity. }
  destruct (restore_direction 0 (fresh_switcher [english; arabic])
              (fresh_page (storage_holding {[ preferredLanguage := "ar-EG" ]}))
              "ar-EG" eq_refl) as (_ & Harabic & _).
  { exists arabic. split; [|reflexivity]. apply list_elem_of_In. simpl. tauto. }
  { reflexivity. }
  split_and!.
  - apply Hother; [discriminate|]. exists Rejected. split; [|reflexivity].
    vm_compute. exact I.
  - apply Hother; [discriminate|]. exists (MatchedItem 0). split; [|reflexivity].
    vm_compute. lia.
  - apply Harabic; [reflexivity|]. exists (MatchedItem 1). split; [|reflexivity].
    vm_compute. reflexivity.
Defined.

(** ** The loop as a relation *)

Lemma sets_up_total k p : ∃ r, sets_up k p r.
Proof.
  unfold sets_up. destruct (switchers p !! k) as [sw|]; [|by eexists].
  destruct (has_toggle sw && has_menu sw); [|by eexists].
  apply restores_total.
Qed.

Lemma initialises_total ks : ∀ p, ∃ r, initialises ks p r.
Proof.
  induction ks as [|k ks IH]; intros p.
  - eexists. constructor.
  - destruct (sets_up_total k p) as [[p1|e p1] Hsetup].
    + destruct (IH p1) as [r Hr]. exists r. by eapply initialises_next.
    + eexists. by eapply initialises_stop.
Qed.

Lemma setup_switcher_sets_up k p r : setup_switcher k p = Some r → sets_up k p r.
Proof.
  unfold setup_switcher, sets_up.
  destruct (switchers p !! k) as [sw|]; [|by intros [= <-]].
  destruct (has_toggle sw && has_menu sw); [|by intros [= <-]].
  apply restore_restores.
Qed.

(** The function [forEach_switcher] gives one of the outcomes of the
    relation. *)
Lemma forEach_switcher_initialises ks : ∀ p r,
  forEach_switcher ks p = Some r → initialises ks p r.
Proof.
  induction ks as [|k ks IH]; intros p r Hr; cbn [forEach_switcher] in Hr.
  - simplify_eq. constructor.
  - destruct (setup_switcher k p) as [[p1|e p1]|] eqn:Hsetup; [| |done].
    + eapply initialises_next; [by apply setup_switcher_sets_up|by apply IH].
    + simplify_eq. apply initialises_stop. by apply setup_switcher_sets_up.
Qed.

Lemma sets_up_other j k p r :
  sets_up j p r → k ≠ j → switchers (page_of r) !! k = switchers p !! k.
Proof.
  unfold sets_up. intros Hr Hne.
  destruct (switchers p !! j) as [sw|]; [|by subst].
  destruct (has_toggle sw && has_menu sw); [|by subst].
  destruct Hr as (a & _ & ->).
  rewrite restore_on_other_switcher by done.
  by apply lookup_set_switcher_ne.
Qed.

Lemma sets_up_skipped j p sw r :
  switchers p !! j = Some sw →
  has_toggle sw && has_menu sw = false →
  sets_up j p r → r = Completed p.
Proof. intros Hsw Hwired. unfold sets_up. by rewrite Hsw, Hwired. Qed.

Lemma initialises_skipped ks p r :
  initialises ks p r →
  ∀ k sw, switchers p !! k = Some sw →
          has_toggle sw && has_menu sw = false →
          switchers (page_of r) !! k = Some sw.
Proof.
  induction 1 as [p|j ks p p1 r Hsetup Hrest IH|j ks p e p1 Hsetup];
    intros k sw Hsw Hwired.
  - done.
  - apply IH; [|done]. destruct (decide (k = j)) as [->|Hne].
    + pose proof (sets_up_skipped j p sw _ Hsw Hwired Hsetup) as Heq.
      by simplify_eq.
    + pose proof (sets_up_other j k p _ Hsetup Hne) as Hother.
      cbn in Hother. by rewrite Hother.
  - destruct (decide (k = j)) as [->|Hne].
    + pose proof (sets_up_skipped j p sw _ Hsw Hwired Hsetup) as Heq.
      by simplify_eq.
    + by rewrite (sets_up_other j k p _ Hsetup Hne).
Qed.

(** X12. A switcher that lacks its toggle or its menu is skipped by
    [initLanguageSwitcher]: the setup always ends, and however it ends, also
    with a SecurityError of the storage or a SyntaxError of the selector
    made from the stored value, that switcher is exactly as before, with no
    listener attached and no preference restored. *)
Theorem setup_skips_incomplete_switcher p k sw :
  switchers p !! k = Some sw →
  has_toggle sw && has_menu sw = false →
  (∃ r, initialises (seq 0 (length (switchers p))) p r)
  ∧ (∀ r, initialises (seq 0 (length (switchers p))) p r →
          switchers (page_of r) !! k = Some sw)
  ∧ (∀ r, initLanguageSwitcher p = Some r →
          switchers (page_of r) !! k = Some sw).
Proof.
  intros Hsw Hwired. split_and!.
  - apply initialises_total.
  - intros r Hr. by apply (initialises_skipped _ p r Hr).
  - intros r Hr. apply forEach_switcher_initialises in Hr.
    by apply (initialises_skipped _ p r Hr).
Qed.

Lemma setup_skips_incomplete_switcher_witness :
  initialises [0; 1]
    (escaped_page (storage_holding {[ preferredLanguage := "fr\FR" ]}))
    (Threw SyntaxError
       (set_switcher 0 (set_listening (fresh_switcher [english; escaped]))
          (escaped_page (storage_holding {[ preferredLanguage := "fr\FR" ]}))))
  ∧ switchers
      (page_of
         (Threw SyntaxError
            (set_switcher 0 (set_listening (fresh_switcher [english; escaped]))
               (escaped_page (storage_holding {[ preferredLanguage := "fr\FR" ]})))))
      !! 1
    = Some (mkSwitcher false false None true [english; arabic] None false).
Proof.
  assert (initialises [0; 1]
            (escaped_page (storage_holding {[ preferredLanguage := "fr\FR" ]}))
            (Threw SyntaxError
               (set_switcher 0 (set_listening (fresh_switcher [english; escaped]))
                  (escaped_page
                     (storage_holding {[ preferredLanguage := "fr\FR" ]})))))
    as Hruns.
  { apply initialises_stop. exists Rejected. split; [|reflexivity].
    vm_compute. exact I. }
  split; [exact Hruns|].
  destruct (setup_skips_incomplete_switcher
              (escaped_page (storage_holding {[ preferredLanguage := "fr\FR" ]}))
              1 (mkSwitcher false false None true [english; arabic] None false)
              eq_refl eq_refl) as (_ & Hskip & _).
  by apply Hskip.
Defined.

(** * Writes, over the whole site *)

Lemma langBtn_click_dir i s :
  dir (MobileMenu.doc (MobileMenu.site_of (MobileMenu.langBtn_click i s)))
  = dir (MobileMenu.doc s).
Proof.
  unfold MobileMenu.langBtn_click.
  destruct (MobileMenu.langBtns (MobileMenu.menu s) !! i); [|done].
  cbn zeta. by destruct (setItem _ _ _).
Qed.

Lemma control_click_doc c s :
  (∀ i, c ≠ MobileMenu.LangBtn i) →
  MobileMenu.doc (MobileMenu.control_click c s) = MobileMenu.doc s.
Proof.
  intros Hc. unfold MobileMenu.control_click.
  destruct (MobileMenu.attached (MobileMenu.menu s)); [|done].
  destruct c as [| | | |i]; try done.
  - by destruct (MobileMenu.has_closeBtn (MobileMenu.menu s)).
  - by destruct (MobileMenu.has_overlay (MobileMenu.menu s)).
  - by destruct (Hc i).
Qed.

Lemma control_click_dir c s :
  dir (MobileMenu.doc (MobileMenu.control_click c s)) = dir (MobileMenu.doc s).
Proof.
  destruct c as [| | | |i]; try (by rewrite control_click_doc).
  unfold MobileMenu.control_click.
  destruct (MobileMenu.attached (MobileMenu.menu s)); [|done].
  apply langBtn_click_dir.
Qed.

(** X3. Over all clicks and keys of the site, on the switchers, on the
    controls of the mobile menu and anywhere else: only the click on an
    option of a dropdown writes the [dir] attribute of the root element, and
    only that click and the click on a language button of the mobile menu
    write [localStorage] or dispatch an event. *)
Theorem only_option_click_writes ev s :
  ((∀ k i, ev ≠ MobileMenu.OnPage (Click (Item k i))) →
   dir (MobileMenu.doc (MobileMenu.site_dispatch ev s)) = dir (MobileMenu.doc s))
  ∧ ((∀ k i, ev ≠ MobileMenu.OnPage (Click (Item k i))) →
     (∀ i, ev ≠ MobileMenu.ClickControl (MobileMenu.LangBtn i)) →
     localStorage (MobileMenu.doc (MobileMenu.site_dispatch ev s))
     = localStorage (MobileMenu.doc s)
     ∧ dispatched (MobileMenu.doc (MobileMenu.site_dispatch ev s))
       = dispatched (MobileMenu.doc s)).
Proof.
  assert (∀ ev', (∀ k i, MobileMenu.OnPage ev' ≠ MobileMenu.OnPage (Click (Item k i))) →
            MobileMenu.doc (MobileMenu.site_dispatch (MobileMenu.OnPage ev') s)
            = dispatch ev' (MobileMenu.doc s)
            ∧ ∀ k i, ev' ≠ Click (Item k i)) as Hpage.
  { intros ev' Hev'. split; [by destruct ev'|].
    intros k i ->. by destruct (Hev' k i). }
  split.
  - intros Hev. destruct ev as [c|ev'].
    + cbn. apply control_click_dir.
    + destruct (Hpage ev' Hev) as [-> Hev'].
      by destruct (other_event_footprint ev' (MobileMenu.doc s) Hev') as (_ & ? & _).
  - intros Hev Hbtn. destruct ev as [c|ev'].
    + cbn. rewrite control_click_doc; [done|].
      intros i ->. by destruct (Hbtn i).
    + destruct (Hpage ev' Hev) as [-> Hev'].
      by destruct (other_event_footprint ev' (MobileMenu.doc s) Hev') as (? & _ & ?).
Qed.

Lemma only_option_click_writes_witness :
  dir (MobileMenu.doc
         (MobileMenu.site_dispatch (MobileMenu.ClickControl (MobileMenu.LangBtn 1))
            (MobileMenu.mkSite (example_page (storage_holding ∅)) german_mobile)))
  = None
  ∧ localStorage
      (MobileMenu.doc
         (MobileMenu.site_dispatch (MobileMenu.OnPage (KeyDown "Escape"))
            (MobileMenu.mkSite (example_page full_storage) german_mobile)))
    = full_storage
  ∧ dispatched
      (MobileMenu.doc
         (MobileMenu.site_dispatch (MobileMenu.OnPage (KeyDown "Escape"))
            (MobileMenu.mkSite (example_page full_storage) german_mobile)))
    = [].
Proof.
  split.
  - apply (only_option_click_writes
             (MobileMenu.ClickControl (MobileMenu.LangBtn 1))
             (MobileMenu.mkSite (example_page (storage_holding ∅)) german_mobile)).
    intros k i. discriminate.
  - apply (only_option_click_writes
             (MobileMenu.OnPage (KeyDown "Escape"))
             (MobileMenu.mkSite (example_page full_storage) german_mobile)).
    + intros k i. discriminate.
    + intros i. discriminate.
Defined.

(** * A code that no option declares *)





